(** * jupyter-output-monitor: the monitoring loop and the notebook annotation merge

    A shallow embedding of [jupyter_output_monitor/_monitor.py]:
    - the Python string operations the script relies on;
    - [monitor], the command that drives the page, as a state-and-error monad
      over the file system, the event log (with the write buffer of its open
      handle), the last-screenshot map and the browser session;
    - [write_profiled_notebook_copy], the post-processor that groups the event
      log by executed cell and weaves annotation cells into a notebook copy.

    Conventions.  A Python [str] is a [string] whose characters are code points
    below 256.  Integers are [Z].  Screenshots are byte strings.  The browser
    and the clock are an environment ([world]) that the program consults; the
    state counts the consultations ([tick]).  [while] loops take fuel, and
    running out of it is the outcome [OutOfFuel].  Calls to [print] have no
    effect on any of this and are left out. *)

From stdpp Require Import base option list gmap strings pretty.
From Stdlib Require Import ZArith Lia Ascii.
From Stdlib.Strings Require Import Byte.

Local Open Scope Z_scope.

(** ** Python strings *)

Module Py.

(** The line feed of ["\n"]. *)
Definition nl : string := String (ascii_of_nat 10) "".

(** [str.isspace] on one character (code points below 256): tab to carriage
    return, the four separators 0x1c-0x1f, space, NEL and the no-break space. *)
Definition isspace (c : ascii) : bool :=
  let n := nat_of_ascii c in
  ((9 <=? n) && (n <=? 13) || (28 <=? n) && (n <=? 32) || (n =? 133) || (n =? 160))%nat.

(** [s.lstrip()], [s.rstrip()] and [s.strip()]. *)
Fixpoint lstrip (s : string) : string :=
  match s with
  | String c s' => if isspace c then lstrip s' else s
  | EmptyString => EmptyString
  end.

Fixpoint rstrip (s : string) : string :=
  match s with
  | String c s' =>
      match rstrip s' with
      | EmptyString => if isspace c then EmptyString else String c EmptyString
      | r => String c r
      end
  | EmptyString => EmptyString
  end.

Definition strip (s : string) : string := lstrip (rstrip s).

(** [s.find(sub)]: the lowest position where [sub] occurs, if any. *)
Fixpoint find (sub s : string) : option nat :=
  if String.prefix sub s then Some 0%nat
  else match s with
       | String _ s' => S <$> find sub s'
       | EmptyString => None
       end.

(** [sub in s]. *)
Definition contains (sub s : string) : bool :=
  match find sub s with Some _ => true | None => false end.

Fixpoint drop (n : nat) (s : string) : string :=
  match n, s with
  | S n', String _ s' => drop n' s'
  | _, _ => s
  end.

Fixpoint take (n : nat) (s : string) : string :=
  match n, s with
  | S n', String c s' => String c (take n' s')
  | _, _ => EmptyString
  end.

(** [s.index(sub, start)] for [0 <= start]; [None] is the [ValueError]. *)
Definition index (sub s : string) (start : nat) : option nat :=
  if (String.length s <? start)%nat then None
  else (λ k, (start + k)%nat) <$> find sub (drop start s).

(** [s[a:b]] for [0 <= a] and [0 <= b]. *)
Definition slice (s : string) (a b : nat) : string := take (b - a) (drop a s).

(** [s.split(sep)] for a separator of one character. *)
Fixpoint split (sep : ascii) (s : string) : list string :=
  match s with
  | EmptyString => [EmptyString]
  | String c s' =>
      if decide (c = sep) then EmptyString :: split sep s'
      else match split sep s' with
           | x :: xs => String c x :: xs
           | [] => [String c EmptyString]
           end
  end.

(** [s.replace(old, new)] for a non-empty [old]: the occurrences are replaced
    from the left and do not overlap.  [skip] counts the characters of an
    occurrence still to be passed over. *)
Fixpoint replace_from (old new s : string) (skip : nat) : string :=
  match s with
  | EmptyString => EmptyString
  | String c s' =>
      match skip with
      | S k => replace_from old new s' k
      | O =>
          if String.prefix old s
          then new +:+ replace_from old new s' (String.length old - 1)
          else String c (replace_from old new s' 0)
      end
  end.

Definition replace (old new s : string) : string := replace_from old new s 0.

Definition digit (c : ascii) : option Z :=
  let n := nat_of_ascii c in
  if ((48 <=? n) && (n <=? 57))%nat then Some (Z.of_nat n - 48) else None.

(** The digits of an integer literal: decimal digits, where one underscore may
    stand between two digits. *)
Fixpoint int_digits (s : string) (acc : Z) (after_digit : bool) : option Z :=
  match s with
  | EmptyString => if after_digit then Some acc else None
  | String c s' =>
      match digit c with
      | Some d => int_digits s' (10 * acc + d) true
      | None =>
          if decide (c = "_"%char) then
            if after_digit then int_digits s' acc false else None
          else None
      end
  end.

(** [int(s)]: surrounding white space, an optional sign, then the digits;
    [None] is the [ValueError]. *)
Definition int (s : string) : option Z :=
  match strip s with
  | String "-"%char d => Z.opp <$> int_digits d 0 false
  | String "+"%char d => int_digits d 0 false
  | d => int_digits d 0 false
  end.

(** [str(n)] for an integer. *)
Definition str (n : Z) : string := pretty n.

Fixpoint zeros (n : nat) : string :=
  match n with O => EmptyString | S k => String "0"%char (zeros k) end.

(** [f"{n:03d}"]: zero padded to a width of three, the sign included. *)
Definition format_03d (n : Z) : string :=
  let d := pretty (Z.abs n) in
  if n <? 0 then "-" +:+ zeros (2 - String.length d) +:+ d
  else zeros (3 - String.length d) +:+ d.

(** [lst[i]]: a negative index counts from the end; [None] is the
    [IndexError]. *)
Definition getitem {A} (l : list A) (i : Z) : option A :=
  let n := Z.of_nat (length l) in
  if (0 <=? i) && (i <? n) then l !! Z.to_nat i
  else if (- n <=? i) && (i <? 0) then l !! Z.to_nat (n + i)
  else None.

(** [os.path.join(a, b)] for a relative [b]. *)
Definition path_join (a b : string) : string :=
  match a with
  | EmptyString => b
  | _ => if String.prefix "/" (String.rev a) then a +:+ b else a +:+ "/" +:+ b
  end.

(** [os.path.basename(p)]: what follows the last slash. *)
Fixpoint basename (p : string) : string :=
  match p with
  | EmptyString => EmptyString
  | String c p' =>
      if contains "/" p then basename p' else p
  end.

End Py.

(** ** Data *)

Definition bytes : Type := list byte.

#[global] Instance byte_eq_decision : EqDecision byte := byte_eq_dec.

(** The exceptions the script can meet. *)
Inductive exn : Type :=
| ValueError
| KeyError
| IndexError
| TypeError
| FileNotFoundError.

#[global] Instance exn_eq_decision : EqDecision exn.
Proof. solve_decision. Defined.

(** A result of a computation that may raise. *)
Inductive result (A : Type) : Type :=
| Ok (a : A)
| Err (e : exn).
Arguments Ok {A} a.
Arguments Err {A} e.

#[global] Instance result_ret : MRet result := λ A a, Ok a.
#[global] Instance result_bind : MBind result := λ A B f m,
  match m with Ok a => f a | Err e => Err e end.
#[global] Instance result_fmap : FMap result := λ A B f m,
  match m with Ok a => Ok (f a) | Err e => Err e end.

(** An optional value, or the exception [e] in its place. *)
Definition or_raise {A} (e : exn) (o : option A) : result A :=
  match o with Some a => Ok a | None => Err e end.

(** One record of the event log as the monitor writes it: the line
    [f"{timestamp},{event},{index},{screenshot}"]. *)
Record log_row : Type := LogRow {
  log_time : string;
  log_event : string;
  log_index : Z;
  log_screenshot : string;
}.

(** A line of [event_log.csv]: the header [time,event,index,screenshot] or a
    record. *)
Inductive log_line : Type :=
| header_line
| event_line (r : log_row).

(** A notebook cell: the two keys the script reads. *)
Record cell : Type := Cell {
  cell_type : string;
  source : string;
}.

#[global] Instance cell_eq_decision : EqDecision cell.
Proof. solve_decision. Defined.

(** What a path of the file system holds. *)
Inductive file : Type :=
| Directory
| Png (image : bytes)
| EventLog
| Notebook (cells : list cell).

(** An input area of the page: [is_visible()], [text_content()] and
    [screenshot()] of its element handle. *)
Record input_cell : Type := InputCell {
  input_visible : bool;
  text_content : string;
  input_screenshot : bytes;
}.

(** The [div] one level below an output area: [get_attribute('style')] and
    [screenshot()]. *)
Record div_element : Type := DivElement {
  style : option string;
  div_screenshot : bytes;
}.

(** An output area of the page: [is_visible()] and [query_selector('div')]. *)
Record output_cell : Type := OutputCell {
  output_visible : bool;
  div : option div_element;
}.

(** The environment: what the [n]-th consultation of the clock or of the page
    answers.  [time_at] is [time.time()] in the unit [wait_after_execute] is
    counted in. *)
Record world : Type := World {
  isotime_at : nat → string;
  time_at : nat → Z;
  input_cells_at : nat → list input_cell;
  output_cells_at : nat → list output_cell;
}.

(** The state the script acts on.  [log_disk] is what of [event_log.csv] has
    reached the disk and [log_buffer] what was written through the open handle
    and not flushed yet. *)
Record state : Type := State {
  fs : gmap string file;
  log_disk : list log_line;
  log_buffer : list log_line;
  last_screenshot : gmap Z bytes;
  tick : nat;
}.

Definition set_fs (f : gmap string file → gmap string file) (s : state) : state :=
  State (f (fs s)) (log_disk s) (log_buffer s) (last_screenshot s) (tick s).

Definition set_last_screenshot (f : gmap Z bytes → gmap Z bytes) (s : state) : state :=
  State (fs s) (log_disk s) (log_buffer s) (f (last_screenshot s)) (tick s).

Definition next_tick (s : state) : state :=
  State (fs s) (log_disk s) (log_buffer s) (last_screenshot s) (S (tick s)).

(** ** The monad of the script *)

Inductive outcome (A : Type) : Type :=
| Done (a : A) (s : state)
| Raised (e : exn) (s : state)
| Exited (code : Z) (s : state)
| OutOfFuel.
Arguments Done {A} a s.
Arguments Raised {A} e s.
Arguments Exited {A} code s.
Arguments OutOfFuel {A}.

Definition M (A : Type) : Type := state → outcome A.

#[global] Instance M_ret : MRet M := λ A a s, Done a s.
#[global] Instance M_bind : MBind M := λ A B f m s,
  match m s with
  | Done a s' => f a s'
  | Raised e s' => Raised e s'
  | Exited c s' => Exited c s'
  | OutOfFuel => OutOfFuel
  end.

Definition raise {A} (e : exn) : M A := λ s, Raised e s.
Definition sys_exit {A} (code : Z) : M A := λ s, Exited code s.
Definition out_of_fuel {A} : M A := λ _, OutOfFuel.
Definition gets {A} (f : state → A) : M A := λ s, Done (f s) s.
Definition modify (f : state → state) : M unit := λ s, Done tt (f s).
Definition lift {A} (r : result A) : M A :=
  match r with Ok a => mret a | Err e => raise e end.

(** [for x in l: body(x)]. *)
Fixpoint for_each {A} (l : list A) (body : A → M unit) : M unit :=
  match l with
  | [] => mret tt
  | x :: l' => body x ≫= λ _, for_each l' body
  end.

(** [for i, x in enumerate(l): body(i, x)], counting from [i]. *)
Fixpoint for_each_from {A} (i : nat) (l : list A) (body : nat → A → M unit) : M unit :=
  match l with
  | [] => mret tt
  | x :: l' => body i x ≫= λ _, for_each_from (S i) l' body
  end.

(** ** The post-processor: from the event log to per-cell profiles *)

(** A string of decimal digits, at least one: its value. *)
Fixpoint digits_value (s : string) (acc : Z) : option Z :=
  match s with
  | EmptyString => Some acc
  | String c s' => d ← Py.digit c; digits_value s' (10 * acc + d)
  end.

(** The number written in [s[a:b]], which must have all [b - a] characters. *)
Definition number_at (s : string) (a b : nat) : option Z :=
  let f := Py.slice s a b in
  if (String.length f =? b - a)%nat && negb (String.length f =? 0)%nat
  then digits_value f 0 else None.

Definition char_at (s : string) (i : nat) (c : ascii) : bool :=
  bool_decide (String.get i s = Some c).

Definition is_leap (y : Z) : bool :=
  (y mod 4 =? 0) && (negb (y mod 100 =? 0) || (y mod 400 =? 0)).

Definition days_in_month (y m : Z) : Z :=
  if m =? 2 then (if is_leap y then 29 else 28)
  else if (m =? 4) || (m =? 6) || (m =? 9) || (m =? 11) then 30 else 31.

(** The day number of a date of the proleptic Gregorian calendar. *)
Definition days_from_civil (y m d : Z) : Z :=
  let y' := if m <=? 2 then y - 1 else y in
  let era := y' / 400 in
  let yoe := y' - era * 400 in
  let doy := (153 * (if 2 <? m then m - 3 else m + 9) + 2) / 5 + d - 1 in
  let doe := yoe * 365 + yoe / 4 - yoe / 100 + doy in
  era * 146097 + doe.

(** [datetime.datetime.fromisoformat(s)] on the two shapes that [isotime]
    writes for a naive [datetime]: [YYYY-MM-DDTHH:MM:SS] and the same followed
    by [.ffffff].  The value is the instant in microseconds, so that the
    difference of two values is their [timedelta]; [None] is the
    [ValueError].  Python reads further shapes (a space for the [T], a date
    alone, an offset from UTC), which [isotime] never writes; what is proved
    below about the elapsed times is about logs whose timestamps the model
    reads. *)
Definition fromisoformat (s : string) : option Z :=
  let n := String.length s in
  if negb ((n =? 19) || (n =? 26))%nat then None
  else if negb (char_at s 4 "-" && char_at s 7 "-" && char_at s 10 "T"
                && char_at s 13 ":" && char_at s 16 ":") then None
  else if (n =? 26)%nat && negb (char_at s 19 ".") then None
  else
    y ← number_at s 0 4;
    mo ← number_at s 5 7;
    d ← number_at s 8 10;
    h ← number_at s 11 13;
    mi ← number_at s 14 16;
    sec ← number_at s 17 19;
    us ← (if (n =? 26)%nat then number_at s 20 26 else Some 0);
    if (1 <=? y) && (1 <=? mo) && (mo <=? 12) && (1 <=? d) && (d <=? days_in_month y mo)
       && (h <? 24) && (mi <? 60) && (sec <? 60)
    then Some ((((days_from_civil y mo d * 24 + h) * 60 + mi) * 60 + sec) * 1000000 + us)
    else None.

(** A record of the log after lines 200-206: [r_time] is the time elapsed
    since the first record.  Python holds it as a float of seconds; the model
    keeps the exact value of the [timedelta], in microseconds. *)
Record row : Type := Row {
  r_time : Z;
  r_event : string;
  r_index : Z;
  r_screenshot : string;
}.

(** What [np.recfromcsv] returns: a record array of one dimension, or, for a
    file with exactly one record, the array of no dimension that numpy
    squeezes a single row into. *)
Inductive recarray : Type :=
  | record_0d (r : log_row)
  | records_1d (rows : list log_row).

(** The records of a log file: the first line names the fields, the others
    are the records, in the order of the file. *)
Definition data_rows (lines : list log_line) : list log_row :=
  omap (λ l, match l with event_line r => Some r | header_line => None end) (tail lines).

Definition squeeze (rows : list log_row) : recarray :=
  match rows with
  | [r] => record_0d r
  | _ => records_1d rows
  end.

(** [np.recfromcsv] (line 196). *)
Definition recfromcsv (lines : list log_line) : recarray :=
  squeeze (data_rows lines).

(** Lines 200-206 on the records of a one-dimensional array: ISO times to
    times elapsed since the first record. *)
Definition elapsed_since_first (log : list log_row) : result (list row) :=
  datetimes ← or_raise ValueError (mapM (λ r, fromisoformat (log_time r)) log);
  match datetimes with
  | [] => Ok []
  | dt0 :: _ =>
      Ok (zip_with (λ r dt, Row (dt - dt0) (log_event r) (log_index r) (log_screenshot r))
                   log datetimes)
  end.

(** Lines 200-206.  The comprehension of line 200 iterates [log['time']]; on
    an array of no dimension the iteration raises [TypeError]. *)
Definition elapsed_times (log : recarray) : result (list row) :=
  match log with
  | record_0d _ => Err TypeError
  | records_1d rows => elapsed_since_first rows
  end.

(** The dictionary of an output-changed record: [row_to_dict(row)] with the
    keys [output_from_cell] and [dt] added. *)
Record changed_dict : Type := ChangedDict {
  changed_row : row;
  output_from_cell : Z;
  dt : Z;
}.

(** [results[index]] after the grouping loop: the keys [execute-input] and
    [output-changed].  Lines 219-224 create the entry and set its
    [execute-input] key to the row at once. *)
Record group : Type := Group {
  execute_input : row;
  output_changed : list changed_dict;
}.

(** The [OrderedDict]: keys in the order of their first insertion. *)
Fixpoint results_get {V} (k : Z) (results : list (Z * V)) : option V :=
  match results with
  | [] => None
  | (k', v) :: rest => if decide (k' = k) then Some v else results_get k rest
  end.

Fixpoint results_alter {V} (f : V → V) (k : Z) (results : list (Z * V)) : list (Z * V) :=
  match results with
  | [] => []
  | (k', v) :: rest =>
      if decide (k' = k) then (k', f v) :: rest else (k', v) :: results_alter f k rest
  end.

Definition append_changed (d : changed_dict) (g : group) : group :=
  Group (execute_input g) (output_changed g ++ [d]).

(** One turn of the grouping loop (lines 215-231) on [results] and
    [last_executed_cell]. *)
Definition group_step (st : list (Z * group) * option Z) (r : row)
  : result (list (Z * group) * option Z) :=
  let '(results, last_executed_cell) := st in
  if bool_decide (results_get (r_index r) results = None)
     && bool_decide (r_event r = "execute-input")
  then Ok (results ++ [(r_index r, Group r [])], Some (r_index r))
  else if bool_decide (r_event r = "output-changed") then
    cell ← or_raise KeyError last_executed_cell;
    g ← or_raise KeyError (results_get cell results);
    let row_dict := ChangedDict r cell (r_time r - r_time (execute_input g)) in
    Ok (results_alter (append_changed row_dict) cell results, Some cell)
  else Ok st.

Fixpoint fold_result {A S} (f : S → A → result S) (s : S) (l : list A) : result S :=
  match l with
  | [] => Ok s
  | x :: l' => s' ← f s x; fold_result f s' l'
  end.

Definition group_from (st : list (Z * group) * option Z) (log : list row)
  : result (list (Z * group) * option Z) :=
  fold_result group_step st log.

(** Lines 211-231. *)
Definition group_rows (log : list row) : result (list (Z * group)) :=
  fst <$> group_from ([], None) log.

(** [results[index]] after lines 234-237: the keys [total] and [n_updates]
    added; [None] is Python's [None]. *)
Record profile : Type := Profile {
  cell_group : group;
  total : option Z;
  n_updates : option Z;
}.

(** Lines 235-237.  The index [-1] exists when the list is not empty. *)
Definition final_timing (g : group) : profile :=
  let has_outputs := length (output_changed g) in
  Profile g
    (if (0 <? has_outputs)%nat then dt <$> Py.getitem (output_changed g) (-1) else None)
    (if (0 <? has_outputs)%nat then Some (Z.of_nat (length (output_changed g))) else None).

Definition final_timings (results : list (Z * group)) : list (Z * profile) :=
  prod_map id final_timing <$> results.

(** The nearest integer to [n / d] for [0 <= n] and [0 < d], ties to even. *)
Definition round_half_even (n d : Z) : Z :=
  let q := n / d in
  let r := n mod d in
  if 2 * r <? d then q
  else if d <? 2 * r then q + 1
  else if Z.even q then q else q + 1.

(** [f"{t:.2f}"] for a time [t] given in microseconds.  The rounding is that
    of the exact value; Python rounds the float nearest to it, which may fall
    on the other side of an exact tie. *)
Definition format_2f (micros : Z) : string :=
  let h := round_half_even (Z.abs micros) 10000 in
  (if micros <? 0 then "-" else "") +:+ Py.str (h / 100) +:+ "."
  +:+ Py.zeros (2 - String.length (Py.str (h mod 100))) +:+ Py.str (h mod 100).

Definition no_output_annotation (idx : Z) : string :=
  "#### Profiling result for cell " +:+ Py.str idx +:+ ": " +:+ Py.nl
  +:+ "No output." +:+ Py.nl.

(** Lines 242-254: the annotation of one executed cell.  Formatting [None]
    with [.2f] or [d] is a [TypeError]. *)
Definition markdown_annotation (idx : Z) (res : profile) : result string :=
  if (0 <? length (output_changed (cell_group res)))%nat then
    last_change ← or_raise IndexError (Py.getitem (output_changed (cell_group res)) (-1));
    let screenshot_path := Py.basename (r_screenshot (changed_row last_change)) in
    t ← or_raise TypeError (total res);
    n ← or_raise TypeError (n_updates res);
    Ok ("![output screenshot](" +:+ screenshot_path +:+ ")" +:+ Py.nl +:+ Py.nl
        +:+ "#### Profiling result for cell " +:+ Py.str idx +:+ ": " +:+ Py.nl
        +:+ " * " +:+ format_2f t +:+ " seconds " +:+ "elapsed" +:+ Py.nl
        +:+ " * " +:+ Py.str n +:+ " output updates" +:+ Py.nl)
  else Ok (no_output_annotation idx).

Fixpoint map_result {A B} (f : A → result B) (l : list A) : result (list B) :=
  match l with
  | [] => Ok []
  | x :: l' => y ← f x; ys ← map_result f l'; Ok (y :: ys)
  end.

(** Lines 240-254. *)
Definition markdown_annotations (results : list (Z * profile)) : result (list string) :=
  map_result (λ p, markdown_annotation p.1 p.2) results.

(** Lines 196-237: the profiles of the executed cells, from the lines of the
    log. *)
Definition profiles (lines : list log_line) : result (list (Z * profile)) :=
  log ← elapsed_times (recfromcsv lines);
  results ← group_rows log;
  Ok (final_timings results).

(** ** The post-processor: weaving the annotations into the notebook *)

(** [nbformat.v4.new_markdown_cell(source)]. *)
Definition new_markdown_cell (src : string) : cell := Cell "markdown" src.

Definition nonempty_code (c : cell) : bool :=
  bool_decide (cell_type c = "code") && (0 <? String.length (source c))%nat.

(** One turn of the loop of lines 264-272 on [new_cells] and
    [nonempty_code_cell_idx]. *)
Definition weave_step (annotations : list string) (st : list cell * Z) (c : cell)
  : result (list cell * Z) :=
  let '(new_cells, nonempty_code_cell_idx) := st in
  let new_cells := new_cells ++ [c] in
  if nonempty_code c then
    let nonempty_code_cell_idx := nonempty_code_cell_idx + 1 in
    a ← or_raise IndexError (Py.getitem annotations nonempty_code_cell_idx);
    Ok (new_cells ++ [new_markdown_cell a], nonempty_code_cell_idx)
  else Ok (new_cells, nonempty_code_cell_idx).

(** Lines 262-272. *)
Definition weave (annotations : list string) (cells : list cell) : result (list cell) :=
  fst <$> fold_result (weave_step annotations) ([], -1) cells.

(** ** Files and the event log *)

Definition path_exists (p : string) : M bool := gets (λ s, bool_decide (is_Some (fs s !! p))).

(** [os.makedirs(p)] once [p] is known not to exist; the empty path cannot
    be created. *)
Definition makedirs (p : string) : M unit :=
  if bool_decide (p = "") then raise FileNotFoundError
  else modify (set_fs <[p := Directory]>).

(** [Image.open(BytesIO(b)).save(filename)]. *)
Definition image_save (filename : string) (b : bytes) : M unit :=
  modify (set_fs <[filename := Png b]>).

(** [open(path, 'w')]: the file is created or emptied. *)
Definition open_log (path : string) (s : state) : state :=
  State (<[path := EventLog]> (fs s)) [] [] (last_screenshot s) (tick s).

(** [log.write(line)]: the line goes to the buffer of the handle. *)
Definition write_line (l : log_line) (s : state) : state :=
  State (fs s) (log_disk s) (log_buffer s ++ [l]) (last_screenshot s) (tick s).

(** [log.flush()]: the buffer goes to the disk. *)
Definition flush (s : state) : state :=
  State (fs s) (log_disk s ++ log_buffer s) [] (last_screenshot s) (tick s).

Definition log_write (l : log_line) : M unit := modify (write_line l).
Definition log_flush : M unit := modify flush.

(** [with open(path, 'w') as log: body]: the handle is closed, and so
    flushed, however the body ends. *)
Definition with_open_log {A} (path : string) (body : M A) : M A := λ s,
  match body (open_log path s) with
  | Done a s' => Done a (flush s')
  | Raised e s' => Raised e (flush s')
  | Exited c s' => Exited c (flush s')
  | OutOfFuel => OutOfFuel
  end.

(** Reading [event_log.csv] back. *)
Definition read_log (path : string) : M (list log_line) := λ s,
  match fs s !! path with
  | Some EventLog => Done (log_disk s) s
  | _ => Raised FileNotFoundError s
  end.

(** [nbformat.read(path, nbformat.NO_CONVERT)]: the cells of the notebook. *)
Definition read_notebook (path : string) : M (list cell) := λ s,
  match fs s !! path with
  | Some (Notebook cells) => Done cells s
  | _ => Raised FileNotFoundError s
  end.

(** [nbformat.write(nb, path)]. *)
Definition write_notebook (path : string) (cells : list cell) : M unit :=
  modify (set_fs <[path := Notebook cells]>).

(** Lines 195-282. *)
Definition write_profiled_notebook_copy (output event_log_path copy_notebook : string)
  : M unit :=
  lines ← read_log event_log_path;
  results ← lift (profiles lines);
  annotations ← lift (markdown_annotations results);
  cells ← read_notebook copy_notebook;
  new_cells ← lift (weave annotations cells);
  let notebook_copy_path :=
    Py.path_join output
      (Py.replace ".ipynb" "-profiling.ipynb" (Py.basename copy_notebook)) in
  write_notebook notebook_copy_path new_cells.

(** ** The monitor *)

Definition RG_SPECIAL : Z * Z := (143, 56).

Definition iso_to_path (time : string) : string := Py.replace ":" "-" time.

(** Lines 150-153: the three channels of the border colour; [None] is the
    [ValueError] of [index], of [int] or of the unpacking. *)
Definition parse_border_color (style : string) : option (Z * Z * Z) :=
  start_pos ← Py.index "border-color:" style 0;
  paren ← Py.index "(" style start_pos;
  let start_pos := S paren in
  end_pos ← Py.index ")" style start_pos;
  channels ← mapM Py.int (Py.split "," (Py.slice style start_pos end_pos));
  match channels with
  | [r; g; b] => Some (r, g, b)
  | _ => None
  end.

Section Monitor.

Variable w : world.

(** [isotime()]. *)
Definition isotime : M string := λ s, Done (isotime_at w (tick s)) (next_tick s).

(** [time.time()]. *)
Definition time_time : M Z := λ s, Done (time_at w (tick s)) (next_tick s).

(** [list(page.query_selector_all('.jp-InputArea-editor'))]. *)
Definition query_input_cells : M (list input_cell) :=
  λ s, Done (input_cells_at w (tick s)) (next_tick s).

(** [list(page.query_selector_all('.jp-OutputArea-output'))]. *)
Definition query_output_cells : M (list output_cell) :=
  λ s, Done (output_cells_at w (tick s)) (next_tick s).

(** [page.wait_for_timeout(1000)]. *)
Definition wait_for_timeout : M unit := modify next_tick.

(** Lines 169-187: the screenshot of a monitored output against the last one
    kept for its index. *)
Definition record_if_changed (output : string) (output_index : Z) (screenshot_bytes : bytes)
  : M unit :=
  last ← gets last_screenshot;
  if bool_decide (last !! output_index = None)
     || bool_decide (last !! output_index ≠ Some screenshot_bytes)
  then
    timestamp ← isotime;
    let screenshot_filename :=
      Py.path_join output
        ("output-" +:+ Py.format_03d output_index +:+ "-" +:+ iso_to_path timestamp +:+ ".png") in
    image_save screenshot_filename screenshot_bytes;;
    log_write (event_line (LogRow timestamp "output-changed" output_index screenshot_filename));;
    log_flush;;
    modify (set_last_screenshot <[output_index := screenshot_bytes]>)
  else mret tt.

(** Lines 134-187: the body of the loop over the output cells. *)
Definition watch_output_cell (output : string) (output_cell : output_cell) : M unit :=
  if negb (output_visible output_cell) then mret tt
  else match div output_cell with
  | None => mret tt
  | Some d =>
      match style d with
      | None => mret tt
      | Some st =>
          if negb (Py.contains "border-color: rgb(" st) then mret tt
          else
            '(r, g, b) ← lift (or_raise ValueError (parse_border_color st));
            if bool_decide ((r, g) ≠ RG_SPECIAL) then mret tt
            else record_if_changed output b (div_screenshot d)
      end
  end.

(** Lines 127-187: [start] is read, then the page is scanned for as long as
    the clock reads less than [wait_after_execute] past it. *)
Fixpoint watch_loop (fuel : nat) (output : string) (start wait_after_execute : Z) : M unit :=
  match fuel with
  | O => out_of_fuel
  | S fuel' =>
      now ← time_time;
      if now - start <? wait_after_execute then
        output_cells ← query_output_cells;
        for_each output_cells (watch_output_cell output);;
        watch_loop fuel' output start wait_after_execute
      else mret tt
  end.

Definition watch (fuel : nat) (output : string) (wait_after_execute : Z) : M unit :=
  start ← time_time;
  watch_loop fuel output start wait_after_execute.

(** Lines 103-120: the cell is photographed and executed, and the
    execute-input record is written. *)
Definition execute_input_cell (output : string) (input_index : nat) (input_cell : input_cell)
  : M unit :=
  let screenshot_bytes := input_screenshot input_cell in
  timestamp ← isotime;
  let screenshot_filename :=
    Py.path_join output
      ("input-" +:+ Py.format_03d (Z.of_nat input_index) +:+ "-" +:+ iso_to_path timestamp
       +:+ ".png") in
  image_save screenshot_filename screenshot_bytes;;
  log_write (event_line (LogRow timestamp "execute-input" (Z.of_nat input_index)
                                screenshot_filename)).

(** Lines 97-189: the body of the loop over the input cells. *)
Definition run_input_cell (fuel : nat) (output : string) (wait_after_execute : Z)
    (input_index : nat) (input_cell : input_cell) : M unit :=
  if bool_decide (Py.strip (text_content input_cell) = "") then mret tt
  else
    execute_input_cell output input_index input_cell;;
    watch fuel output wait_after_execute.

(** Lines 74-90: the page is polled until it shows an input cell. *)
Fixpoint wait_for_input_cells (fuel : nat) : M (list input_cell) :=
  match fuel with
  | O => out_of_fuel
  | S fuel' =>
      input_cells ← query_input_cells;
      let input_cells := filter (λ c, input_visible c = true) input_cells in
      if (0 <? length input_cells)%nat then mret input_cells
      else wait_for_timeout;; wait_for_input_cells fuel'
  end.

(** Lines 63-189: what runs with the log open. *)
Definition monitor_session (fuel : nat) (output : string) (wait_after_execute : Z) : M unit :=
  log_write header_line;;
  log_flush;;
  input_cells ← wait_for_input_cells fuel;
  modify (set_last_screenshot (λ _, ∅));;
  for_each_from 0 input_cells (run_input_cell fuel output wait_after_execute).

(** The truth value of the option [--notebook-copy]. *)
Definition given (copy_notebook : option string) : option string :=
  match copy_notebook with
  | Some "" => None
  | o => o
  end.

(** Lines 49-192: the body of the command.  The page is the one opened at
    [url], in the mode [headless] asks for; both are part of [w]. *)
Definition monitor (fuel : nat) (output : option string) (wait_after_execute : Z)
    (copy_notebook : option string) : M unit :=
  output ← match output with
           | None => timestamp ← isotime; mret ("output-" +:+ iso_to_path timestamp)
           | Some o => mret o
           end;
  exists_already ← path_exists output;
  if (exists_already : bool) then sys_exit 1
  else
    makedirs output;;
    modify (set_last_screenshot (λ _, ∅));;
    let event_log_path := Py.path_join output "event_log.csv" in
    with_open_log event_log_path (monitor_session fuel output wait_after_execute);;
    match given copy_notebook with
    | Some path => write_profiled_notebook_copy output event_log_path path
    | None => mret tt
    end.

End Monitor.

(** ** Observations on states and outcomes *)

(** Everything written to the log so far, flushed or not. *)
Definition log_written (s : state) : list log_line := log_disk s ++ log_buffer s.

(** The state a computation ends in, when it ends. *)
Definition final_state {A} (o : outcome A) : option state :=
  match o with
  | Done _ s | Raised _ s | Exited _ s => Some s
  | OutOfFuel => None
  end.

(** A screenshot counts as a change of output [output_index] when none is
    kept for the index or the one kept differs (line 173). *)
Definition change_detected (s : state) (output_index : Z) (screenshot_bytes : bytes) : Prop :=
  last_screenshot s !! output_index = None
  ∨ last_screenshot s !! output_index ≠ Some screenshot_bytes.

#[global] Instance change_detected_dec s i b : Decision (change_detected s i b).
Proof. unfold change_detected. apply _. Defined.

(** The name of the screenshot file of an output, line 178. *)
Definition output_screenshot_filename (output : string) (output_index : Z) (timestamp : string)
  : string :=
  Py.path_join output
    ("output-" +:+ Py.format_03d output_index +:+ "-" +:+ iso_to_path timestamp +:+ ".png").

(** The state after lines 175-187, for the [timestamp] read at line 177. *)
Definition after_change (output : string) (output_index : Z) (screenshot_bytes : bytes)
    (timestamp : string) (s : state) : state :=
  let screenshot_filename := output_screenshot_filename output output_index timestamp in
  State (<[screenshot_filename := Png screenshot_bytes]> (fs s))
        (log_disk s ++ log_buffer s
         ++ [event_line (LogRow timestamp "output-changed" output_index screenshot_filename)])
        []
        (<[output_index := screenshot_bytes]> (last_screenshot s))
        (S (tick s)).

(** ** Sample inputs *)

(** A style as the page carries it for the monitored output 7, and one whose
    second channel is off by one. *)
Definition sample_style : string := "border: 2px solid; border-color: rgb(143, 56, 7);".
Definition other_style : string := "border: 2px solid; border-color: rgb(143, 57, 7);".

Definition sample_output_cell : output_cell :=
  OutputCell true (Some (DivElement (Some sample_style) [x89; x50; x4e; x47])).
Definition other_output_cell : output_cell :=
  OutputCell true (Some (DivElement (Some other_style) [x89; x50; x4e; x47])).

(** The [n]-th timestamp of the sample clock: [2024-05-17T10:00:nn.250000]. *)
Definition sample_isotime (n : nat) : string :=
  "2024-05-17T10:00:" +:+ Py.zeros (2 - String.length (pretty n)) +:+ pretty n +:+ ".250000".

(** The input cells of the sample page: the second one is empty. *)
Definition sample_input_cells : list input_cell :=
  [InputCell true "x = 1" [x01]; InputCell true " " [x01]; InputCell true "print(x)" [x01]].

(** A page that shows its input cells from the second poll on, with the
    monitored output 7, whose picture changes once; the clock advances by one
    at every consultation. *)
Definition sample_world : world :=
  World sample_isotime (λ n, Z.of_nat n)
    (λ n, if (n <? 2)%nat then [] else sample_input_cells)
    (λ n, [OutputCell true
             (Some (DivElement (Some sample_style) (if (n <? 6)%nat then [x02] else [x03])))]).

(** A state with the log open and its header flushed. *)
Definition sample_state : state :=
  State {[ "out" := Directory; "out/event_log.csv" := EventLog ]} [header_line] [] ∅ 0.


(** The directory the run writes to: the option [--output], or the default
    of line 52. *)
Definition output_directory (w : world) (output : option string) (s : state) : string :=
  match output with
  | Some o => o
  | None => "output-" +:+ iso_to_path (isotime_at w (tick s))
  end.

(** A computation that never ends by [sys.exit]. *)
Definition no_exit {A} (m : M A) : Prop := ∀ s code s', m s ≠ Exited code s'.

(** A page with one non-empty input cell and no output area. *)
Definition quiet_world : world :=
  World sample_isotime (λ n, Z.of_nat n) (λ _, [InputCell true "print(1)" [x01]]) (λ _, []).


(** The sample log of three records: cell 0 is executed at [10:00:00.25] and
    its output changes 1.5 and 4 seconds later. *)
Definition sample_log : list log_line :=
  [ header_line;
    event_line (LogRow "2024-05-17T10:00:00.250000" "execute-input" 0 "out/input-000.png");
    event_line (LogRow "2024-05-17T10:00:01.750000" "output-changed" 0 "out/output-000-a.png");
    event_line (LogRow "2024-05-17T10:00:04.250000" "output-changed" 0 "out/output-000-b.png") ].


(** What the grouping loop maintains: while no cell has been executed
    [results] is empty, and the last executed cell has an entry. *)
Definition grouping_invariant (st : list (Z * group) * option Z) : Prop :=
  (st.2 = None → st.1 = []) ∧ (∀ c, st.2 = Some c → is_Some (results_get c st.1)).


(** The character [c] occurs in [s]. *)
Fixpoint occurs (c : ascii) (s : string) : bool :=
  match s with
  | EmptyString => false
  | String c' s' => bool_decide (c' = c) || occurs c s'
  end.


(** ** The woven notebook, as the specification describes it *)

(** A cell of the annotated notebook, with where it comes from: a cell of the
    source notebook or an annotation made for the cell before it. *)
Inductive woven : Type :=
| original (c : cell)
| synthesized (annotation : string).

Definition woven_cell (x : woven) : cell :=
  match x with
  | original c => c
  | synthesized a => new_markdown_cell a
  end.

Definition is_synthesized (x : woven) : bool :=
  match x with synthesized _ => true | original _ => false end.

(** The cells of the source notebook in their order, each non-empty code cell
    followed at once by the next annotation. *)
Fixpoint interleave (annotations : list string) (cells : list cell) : list woven :=
  match cells with
  | [] => []
  | c :: cells' =>
      if nonempty_code c then
        match annotations with
        | a :: annotations' => original c :: synthesized a :: interleave annotations' cells'
        | [] => original c :: interleave [] cells'
        end
      else original c :: interleave annotations cells'
  end.

(** The number of non-empty code cells. *)
Definition count_nonempty_code (cells : list cell) : nat :=
  length (filter (λ c, nonempty_code c = true) cells).

(** The cells of the woven notebook that come from the source notebook. *)
Definition originals (l : list woven) : list cell :=
  omap (λ x, match x with original c => Some c | synthesized _ => None end) l.

(** The annotations placed in the woven notebook. *)
Definition placed_annotations (l : list woven) : list string :=
  omap (λ x, match x with synthesized a => Some a | original _ => None end) l.

(** A sample notebook: two non-empty code cells around a markdown cell and an
    empty code cell. *)
Definition sample_notebook : list cell :=
  [Cell "code" "x = 1"; Cell "markdown" "# Title"; Cell "code" ""; Cell "code" "print(x)"].


(** The file system before a run: the source notebook only. *)
Definition initial_state : state :=
  State {[ "demo.ipynb" := Notebook sample_notebook ]} [] [] ∅ 0.

(** ** Fuel *)

(** More fuel does not change the outcome of a computation that had enough. *)
Definition stable {A} (m : nat → M A) : Prop :=
  ∀ fuel fuel' s, (fuel ≤ fuel')%nat → m fuel s ≠ OutOfFuel → m fuel' s = m fuel s.

(** From [s] the computation ends by itself, given fuel enough. *)
Definition halts {A} (m : nat → M A) (s : state) : Prop :=
  ∃ fuel, m fuel s ≠ OutOfFuel.

(** The page shows a visible input cell from some consultation on. *)
Definition input_cells_appear (w : world) : Prop :=
  ∃ n, ∀ m, (n ≤ m)%nat → filter (λ c, input_visible c = true) (input_cells_at w m) ≠ [].

(** The clock passes every bound, for good. *)
Definition clock_advances (w : world) : Prop :=
  ∀ t, ∃ n, ∀ m, (n ≤ m)%nat → t ≤ time_at w m.


(** ** Specifications of runs *)

(** From a state where [P] holds, [m] ends (normally, by an exception or by
    an exit) only in states where [Q] holds. *)
Definition hoare {A} (P : state → Prop) (m : M A) (Q : state → Prop) : Prop :=
  ∀ s s', P s → final_state (m s) = Some s' → Q s'.

(** [s] holds white space only. *)
Fixpoint blank (s : string) : bool :=
  match s with
  | EmptyString => true
  | String c s' => Py.isspace c && blank s'
  end.

(** The character [iso_to_path] puts for [c]. *)
Definition path_char (c : ascii) : ascii :=
  if decide (c = ":"%char) then "-"%char else c.


(** The name of the screenshot file of an input cell, line 116. *)
Definition input_screenshot_filename (output : string) (input_index : nat) (timestamp : string)
  : string :=
  Py.path_join output
    ("input-" +:+ Py.format_03d (Z.of_nat input_index) +:+ "-" +:+ iso_to_path timestamp
     +:+ ".png").

(** The state after lines 103-120, for the [timestamp] read at line 114. *)
Definition after_execute (output : string) (input_index : nat) (c : input_cell)
    (timestamp : string) (s : state) : state :=
  let screenshot_filename := input_screenshot_filename output input_index timestamp in
  State (<[screenshot_filename := Png (input_screenshot c)]> (fs s))
        (log_disk s)
        (log_buffer s
         ++ [event_line (LogRow timestamp "execute-input" (Z.of_nat input_index)
                                screenshot_filename)])
        (last_screenshot s)
        (S (tick s)).


(** The log holds the header and then records only. *)
Definition header_then_records (l : list log_line) : Prop :=
  ∃ rows, l = header_line :: (event_line <$> rows).

(** Every record written so far names a screenshot file that is there. *)
Definition screenshots_saved (s : state) : Prop :=
  ∀ r, event_line r ∈ log_written s → ∃ image, fs s !! log_screenshot r = Some (Png image).


(** In the records [rows] every output-changed record comes after some
    execute-input record. *)
Definition execution_first (rows : list log_row) : Prop :=
  ∀ k r, rows !! k = Some r → log_event r = "output-changed" →
    ∃ j r', (j < k)%nat ∧ rows !! j = Some r' ∧ log_event r' = "execute-input".

(** The log written so far is the header and then records in which every
    output-changed record comes after an execute-input record. *)
Definition log_in_order (s : state) : Prop :=
  ∃ rows, log_written s = header_line :: (event_line <$> rows) ∧ execution_first rows.

(** The same, and a cell has been executed. *)
Definition log_in_order_executing (s : state) : Prop :=
  ∃ rows, log_written s = header_line :: (event_line <$> rows) ∧ execution_first rows
          ∧ ∃ j r', rows !! j = Some r' ∧ log_event r' = "execute-input".


(** The number of output-changed records held by the groups. *)
Definition grouped_changes (results : list (Z * group)) : nat :=
  sum_list_with (λ p, length (output_changed p.2)) results.

(** The number of output-changed records of a log. *)
Definition logged_changes (log : list row) : nat :=
  length (filter (λ r, r_event r = "output-changed") log).

(** The group [g] kept under the key [k] is well formed for the records
    [log]: it opens with an execute-input record of index [k] taken from
    [log], and each of its output-changed records is one of [log], marked
    with [k] and timed from the execute-input record. *)
Definition group_of_cell (log : list row) (k : Z) (g : group) : Prop :=
  r_event (execute_input g) = "execute-input"
  ∧ r_index (execute_input g) = k
  ∧ execute_input g ∈ log
  ∧ ∀ c, c ∈ output_changed g →
      output_from_cell c = k
      ∧ dt c = r_time (changed_row c) - r_time (execute_input g)
      ∧ r_event (changed_row c) = "output-changed"
      ∧ changed_row c ∈ log.

(** What the grouping loop has built from the records [log]. *)
Definition grouping_of (log : list row) (results : list (Z * group)) : Prop :=
  NoDup results.*1
  ∧ (∀ k g, (k, g) ∈ results → group_of_cell log k g)
  ∧ grouped_changes results = logged_changes log.

(** ** Runs without exceptions *)

(** A computation that never ends by an exception. *)
Definition no_raise {A} (m : M A) : Prop := ∀ s e s', m s ≠ Raised e s'.

(** Every style with the border-colour token that a scan of the page can
    meet is one that lines 150-153 can read. *)
Definition styles_parse (w : world) : Prop :=
  ∀ n c d st,
    c ∈ output_cells_at w n → output_visible c = true →
    div c = Some d → style d = Some st →
    Py.contains "border-color: rgb(" st = true →
    is_Some (parse_border_color st).

(** The state in which the log is opened (line 63): the output directory has
    been named, which reads the clock when the option [--output] is absent,
    and made, and no screenshot is kept yet. *)
Definition session_start (w : world) (output : option string) (s : state) : state :=
  set_last_screenshot (λ _, ∅)
    (set_fs <[output_directory w output s := Directory]>
       (match output with Some _ => s | None => next_tick s end)).

(** * Theorems *)

Ltac unfold_monad :=
  unfold mbind, M_bind, mret, M_ret, lift, raise, sys_exit, modify, gets, or_raise,
    result_bind, result_ret, log_write, log_flush, image_save in *.

(** ** The change detector *)

Lemma record_if_changed_eq w output output_index shot s :
  record_if_changed w output output_index shot s =
    if decide (change_detected s output_index shot)
    then Done tt (after_change output output_index shot (isotime_at w (tick s)) s)
    else Done tt s.
Proof.
  unfold record_if_changed, change_detected.
  unfold_monad. simpl.
  destruct (decide _) as [Hc | Hc].
  - assert (bool_decide (last_screenshot s !! output_index = None)
            || bool_decide (last_screenshot s !! output_index ≠ Some shot) = true) as ->.
    { destruct Hc as [Hc | Hc]; [rewrite (bool_decide_eq_true_2 _ Hc) | rewrite (bool_decide_eq_true_2 _ Hc)];
        [reflexivity | apply orb_true_r]. }
    unfold isotime, after_change, output_screenshot_filename, write_line, flush, set_fs,
      set_last_screenshot, next_tick. simpl.
    reflexivity.
  - assert (bool_decide (last_screenshot s !! output_index = None)
            || bool_decide (last_screenshot s !! output_index ≠ Some shot) = false) as ->.
    { apply orb_false_intro; apply bool_decide_eq_false_2; tauto. }
    reflexivity.
Qed.

(** A region whose style carries the sentinel reaches line 169 with the third
    channel as its index. *)
Lemma watch_monitored_cell w output c d st b s :
  output_visible c = true → div c = Some d → style d = Some st →
  Py.contains "border-color: rgb(" st = true →
  parse_border_color st = Some (143, 56, b) →
  watch_output_cell w output c s = record_if_changed w output b (div_screenshot d) s.
Proof.
  intros Hv Hd Hs Hc Hp. unfold watch_output_cell.
  rewrite Hv, Hd, Hs, Hc. simpl. unfold_monad. rewrite Hp. simpl.
  reflexivity.
Qed.

(** C1.  A monitored output (visible, with a style that carries the sentinel
    pair and the index [b]) is scanned with the screenshot [shot].  The scan
    ends normally, and a change event is logged, and the stored bytes of index
    [b] change, if and only if no bytes were stored for [b] or the stored bytes
    differ from [shot].  When an event is logged it is one output-changed
    record for [b], flushed, and the stored bytes become [shot]; otherwise the
    state is untouched.  Either way the bytes stored for [b] afterwards are
    [shot]. *)
Theorem change_logged_iff_screenshot_differs w output c d st b s :
  output_visible c = true → div c = Some d → style d = Some st →
  Py.contains "border-color: rgb(" st = true →
  parse_border_color st = Some (143, 56, b) →
  ∃ s', watch_output_cell w output c s = Done tt s'
    ∧ (log_written s' ≠ log_written s ↔ change_detected s b (div_screenshot d))
    ∧ (last_screenshot s' ≠ last_screenshot s ↔ change_detected s b (div_screenshot d))
    ∧ (change_detected s b (div_screenshot d) →
        ∃ timestamp screenshot_filename,
          log_disk s' = log_written s
            ++ [event_line (LogRow timestamp "output-changed" b screenshot_filename)]
          ∧ log_buffer s' = []
          ∧ last_screenshot s' = <[b := div_screenshot d]> (last_screenshot s))
    ∧ (¬ change_detected s b (div_screenshot d) → s' = s)
    ∧ last_screenshot s' !! b = Some (div_screenshot d).
Proof.
  intros Hv Hd Hs Hc Hp.
  rewrite (watch_monitored_cell w output c d st b s Hv Hd Hs Hc Hp).
  rewrite record_if_changed_eq.
  destruct (decide (change_detected s b (div_screenshot d))) as [Hch | Hch].
  - eexists. split; [reflexivity |].
    unfold after_change, log_written. simpl.
    repeat split; try (intros; assumption).
    + intros _. rewrite app_nil_r, app_assoc. intros Heq.
      apply (f_equal length) in Heq. rewrite length_app in Heq. simpl in Heq. lia.
    + intros _ Heq. apply (f_equal (λ m, m !! b)) in Heq.
      rewrite lookup_insert_eq in Heq. destruct Hch as [Hn | Hn]; congruence.
    + intros _. do 2 eexists. rewrite <- app_assoc. repeat split; reflexivity.
    + intros Hn. contradiction.
    + apply lookup_insert_eq.
  - exists s. split; [reflexivity |].
    repeat split; try (intros; congruence); try contradiction.
    unfold change_detected in Hch.
    destruct (last_screenshot s !! b) as [old |] eqn:Hold.
    + destruct (decide (old = div_screenshot d)) as [-> | Hne]; [reflexivity |].
      exfalso. apply Hch. right. congruence.
    + exfalso. apply Hch. left. reflexivity.
Qed.

(** Any effect of scanning one output cell on the log or on the
    last-screenshot map comes from line 173 onwards. *)
Lemma watch_output_cell_cases w output c s :
  (watch_output_cell w output c s = Done tt s)
  ∨ (watch_output_cell w output c s = Raised ValueError s)
  ∨ (∃ d st b,
       output_visible c = true ∧ div c = Some d ∧ style d = Some st
       ∧ Py.contains "border-color: rgb(" st = true
       ∧ parse_border_color st = Some (143, 56, b)
       ∧ watch_output_cell w output c s = record_if_changed w output b (div_screenshot d) s).
Proof.
  unfold watch_output_cell.
  destruct (output_visible c) eqn:Hv; simpl; [| left; reflexivity].
  destruct (div c) as [d |] eqn:Hd; [| left; reflexivity].
  destruct (style d) as [st |] eqn:Hs; [| left; reflexivity].
  destruct (Py.contains "border-color: rgb(" st) eqn:Hc; simpl; [| left; reflexivity].
  unfold_monad.
  destruct (parse_border_color st) as [[[r g] b] |] eqn:Hp; simpl;
    [| right; left; reflexivity].
  destruct (bool_decide ((r, g) ≠ RG_SPECIAL)) eqn:Hrg.
  - left. reflexivity.
  - right. right. apply bool_decide_eq_false_1 in Hrg.
    assert ((r, g) = RG_SPECIAL) as Heq by (destruct (decide ((r, g) = RG_SPECIAL)); tauto).
    unfold RG_SPECIAL in Heq. injection Heq as -> ->.
    exists d, st, b. repeat split; try assumption; reflexivity.
Qed.

(** C2.  Scanning an output region whose style lacks the border-colour token,
    or whose first two channels are not the reserved pair (143, 56), whatever
    the third, ends with the state untouched: no event is logged and the
    last-screenshot map is as before.  Conversely a scan that logs anything or
    changes the map was of a visible region whose style carries the token and
    parses to (143, 56, b), and what it logged is one output-changed record
    of index [b]. *)
Theorem only_sentinel_regions_are_recorded w output c s :
  (∀ d st, div c = Some d → style d = Some st →
     Py.contains "border-color: rgb(" st = false →
     watch_output_cell w output c s = Done tt s)
  ∧ (∀ d st r g b, div c = Some d → style d = Some st →
       parse_border_color st = Some (r, g, b) → (r, g) ≠ RG_SPECIAL →
       watch_output_cell w output c s = Done tt s)
  ∧ (∀ s', final_state (watch_output_cell w output c s) = Some s' →
       log_written s' ≠ log_written s ∨ last_screenshot s' ≠ last_screenshot s →
       ∃ d st b timestamp screenshot_filename,
         output_visible c = true ∧ div c = Some d ∧ style d = Some st
         ∧ Py.contains "border-color: rgb(" st = true
         ∧ parse_border_color st = Some (143, 56, b)
         ∧ log_written s' = log_written s
             ++ [event_line (LogRow timestamp "output-changed" b screenshot_filename)]).
Proof.
  split; [| split].
  - intros d st Hd Hs Hc. unfold watch_output_cell. rewrite Hd, Hs, Hc.
    destruct (output_visible c); reflexivity.
  - intros d st r g b Hd Hs Hp Hrg.
    destruct (watch_output_cell_cases w output c s)
      as [H | [H | (d' & st' & b' & _ & Hd' & Hs' & _ & Hp' & _)]]; [exact H | |].
    + unfold watch_output_cell in H. rewrite Hd, Hs in H.
      destruct (output_visible c); simpl in H; [| discriminate].
      destruct (Py.contains _ st); simpl in H; [| discriminate].
      unfold_monad. rewrite Hp in H. simpl in H.
      rewrite (bool_decide_eq_true_2 _ Hrg) in H. discriminate.
    + exfalso. apply Hrg. unfold RG_SPECIAL. congruence.
  - intros s' Hfin Hdiff.
    destruct (watch_output_cell_cases w output c s)
      as [H | [H | (d & st & b & Hv & Hd & Hs & Hc & Hp & H)]].
    + rewrite H in Hfin. injection Hfin as <-. destruct Hdiff; congruence.
    + rewrite H in Hfin. injection Hfin as <-. destruct Hdiff; congruence.
    + rewrite H, record_if_changed_eq in Hfin.
      destruct (decide (change_detected s b (div_screenshot d))).
      * injection Hfin as <-.
        exists d, st, b. do 2 eexists. repeat split; try assumption.
        unfold after_change, log_written. simpl.
        rewrite app_nil_r, app_assoc. reflexivity.
      * injection Hfin as <-. destruct Hdiff; congruence.
Qed.

Lemma change_logged_iff_screenshot_differs_witness :
  Py.contains "border-color: rgb(" sample_style = true
  ∧ parse_border_color sample_style = Some (143, 56, 7)
  ∧ ∃ s', watch_output_cell sample_world "out" sample_output_cell sample_state = Done tt s'
      ∧ (log_written s' ≠ log_written sample_state
         ↔ change_detected sample_state 7 [x89; x50; x4e; x47])
      ∧ last_screenshot s' !! 7 = Some [x89; x50; x4e; x47].
Proof.
  split; [reflexivity |]. split; [reflexivity |].
  destruct (change_logged_iff_screenshot_differs sample_world "out" sample_output_cell
              (DivElement (Some sample_style) [x89; x50; x4e; x47]) sample_style 7 sample_state
              eq_refl eq_refl eq_refl eq_refl eq_refl)
    as (s' & Hrun & Hlog & _ & _ & _ & Hstored).
  exists s'. split; [exact Hrun |]. split; [exact Hlog | exact Hstored].
Defined.

Lemma only_sentinel_regions_are_recorded_witness :
  parse_border_color other_style = Some (143, 57, 7)
  ∧ watch_output_cell sample_world "out" other_output_cell sample_state = Done tt sample_state.
Proof.
  split; [reflexivity |].
  apply (proj1 (proj2 (only_sentinel_regions_are_recorded sample_world "out" other_output_cell
                         sample_state))
           (DivElement (Some other_style) [x89; x50; x4e; x47]) other_style 143 57 7
           eq_refl eq_refl eq_refl).
  unfold RG_SPECIAL. intros H. discriminate H.
Defined.

(** ** The event log and its buffer *)

(** The execute-input record is written to the buffer of the handle and the
    disk is left as it was: line 120 is not followed by a flush. *)
Lemma execute_input_cell_buffers w output input_index c s :
  ∃ s' timestamp screenshot_filename,
    execute_input_cell w output input_index c s = Done tt s'
    ∧ log_disk s' = log_disk s
    ∧ log_buffer s' = log_buffer s
        ++ [event_line (LogRow timestamp "execute-input" (Z.of_nat input_index)
                               screenshot_filename)].
Proof.
  unfold execute_input_cell, isotime. unfold_monad. simpl.
  do 3 eexists. repeat split.
Qed.

(** C5 (the code departs from it).  On a page with one input cell and no
    output area, the execute-input record is still in the buffer, and not on
    disk, when the watch of the cell ends: only the header has reached the
    disk. *)
Theorem execute_input_record_not_flushed :
  ∃ s' screenshot_filename,
    run_input_cell quiet_world 10 "out" 3 0 (InputCell true "print(1)" [x01]) sample_state
      = Done tt s'
    ∧ log_disk s' = [header_line]
    ∧ log_buffer s'
      = [event_line (LogRow "2024-05-17T10:00:00.250000" "execute-input" 0 screenshot_filename)].
Proof.
  do 2 eexists. vm_compute. repeat split.
Qed.

(** ** Exit codes *)

Lemma no_exit_bind {A B} (m : M A) (f : A → M B) :
  no_exit m → (∀ a, no_exit (f a)) → no_exit (m ≫= f).
Proof.
  intros Hm Hf s code s'. unfold mbind, M_bind.
  destruct (m s) as [a s1 | e s1 | c s1 |] eqn:Hms; try discriminate.
  - apply Hf.
  - exfalso. exact (Hm s c s1 Hms).
Qed.

Lemma no_exit_ret {A} (a : A) : no_exit (mret a : M A).
Proof. intros s code s'. discriminate. Qed.

Lemma no_exit_raise {A} (e : exn) : no_exit (raise e : M A).
Proof. intros s code s'. discriminate. Qed.

Lemma no_exit_out_of_fuel {A} : no_exit (out_of_fuel : M A).
Proof. intros s code s'. discriminate. Qed.

Lemma no_exit_modify (f : state → state) : no_exit (modify f).
Proof. intros s code s'. discriminate. Qed.

Lemma no_exit_gets {A} (f : state → A) : no_exit (gets f).
Proof. intros s code s'. discriminate. Qed.

Lemma no_exit_lift {A} (r : result A) : no_exit (lift r).
Proof. destruct r; intros s code s'; discriminate. Qed.

Lemma no_exit_for_each {A} (l : list A) (body : A → M unit) :
  (∀ x, no_exit (body x)) → no_exit (for_each l body).
Proof.
  intros Hb. induction l as [| x l IH]; simpl.
  - apply no_exit_ret.
  - apply no_exit_bind; [apply Hb | intros _; exact IH].
Qed.

Lemma no_exit_for_each_from {A} (l : list A) (body : nat → A → M unit) i :
  (∀ i x, no_exit (body i x)) → no_exit (for_each_from i l body).
Proof.
  intros Hb. revert i. induction l as [| x l IH]; intros i; simpl.
  - apply no_exit_ret.
  - apply no_exit_bind; [apply Hb | intros _; apply IH].
Qed.

Lemma no_exit_isotime w : no_exit (isotime w).
Proof. intros s code s'. discriminate. Qed.

Lemma no_exit_time_time w : no_exit (time_time w).
Proof. intros s code s'. discriminate. Qed.

Lemma no_exit_record_if_changed w output i b : no_exit (record_if_changed w output i b).
Proof.
  intros s code s'. rewrite record_if_changed_eq. destruct (decide _); discriminate.
Qed.

Lemma no_exit_watch_output_cell w output c : no_exit (watch_output_cell w output c).
Proof.
  intros s code s'.
  destruct (watch_output_cell_cases w output c s) as [H | [H | (d & st & b & _ & _ & _ & _ & _ & H)]];
    rewrite H; try discriminate.
  apply no_exit_record_if_changed.
Qed.

Lemma no_exit_watch_loop w fuel output start wait :
  no_exit (watch_loop w fuel output start wait).
Proof.
  induction fuel as [| fuel IH]; simpl; [apply no_exit_out_of_fuel |].
  apply no_exit_bind; [apply no_exit_time_time | intros now].
  destruct (now - start <? wait); [| apply no_exit_ret].
  apply no_exit_bind; [intros s code s'; discriminate | intros cells].
  apply no_exit_bind; [| intros _; exact IH].
  apply no_exit_for_each. intros c. apply no_exit_watch_output_cell.
Qed.

Lemma no_exit_run_input_cell w fuel output wait i c :
  no_exit (run_input_cell w fuel output wait i c).
Proof.
  unfold run_input_cell. destruct (bool_decide _); [apply no_exit_ret |].
  apply no_exit_bind.
  - intros s code s'.
    destruct (execute_input_cell_buffers w output i c s) as (s1 & ts & fn & H & _).
    rewrite H. discriminate.
  - intros _. unfold watch.
    apply no_exit_bind; [apply no_exit_time_time | intros start; apply no_exit_watch_loop].
Qed.

Lemma no_exit_wait_for_input_cells w fuel : no_exit (wait_for_input_cells w fuel).
Proof.
  induction fuel as [| fuel IH]; simpl; [apply no_exit_out_of_fuel |].
  apply no_exit_bind; [intros s code s'; discriminate | intros cells].
  destruct (0 <? _)%nat; [apply no_exit_ret |].
  apply no_exit_bind; [apply no_exit_modify | intros _; exact IH].
Qed.

Lemma no_exit_monitor_session w fuel output wait :
  no_exit (monitor_session w fuel output wait).
Proof.
  unfold monitor_session.
  apply no_exit_bind; [apply no_exit_modify | intros _].
  apply no_exit_bind; [apply no_exit_modify | intros _].
  apply no_exit_bind; [apply no_exit_wait_for_input_cells | intros cells].
  apply no_exit_bind; [apply no_exit_modify | intros _].
  apply no_exit_for_each_from. intros i c. apply no_exit_run_input_cell.
Qed.

Lemma no_exit_with_open_log {A} path (body : M A) :
  no_exit body → no_exit (with_open_log path body).
Proof.
  intros Hb s code s'. unfold with_open_log.
  destruct (body (open_log path s)) as [a s1 | e s1 | c s1 |] eqn:Hbody; try discriminate.
  exfalso. exact (Hb _ _ _ Hbody).
Qed.

Lemma no_exit_write_profiled_notebook_copy output event_log_path copy_notebook :
  no_exit (write_profiled_notebook_copy output event_log_path copy_notebook).
Proof.
  unfold write_profiled_notebook_copy.
  apply no_exit_bind.
  { intros s code s'. unfold read_log. destruct (fs s !! event_log_path) as [[] |]; discriminate. }
  intros lines. apply no_exit_bind; [apply no_exit_lift | intros results].
  apply no_exit_bind; [apply no_exit_lift | intros annotations].
  apply no_exit_bind.
  { intros s code s'. unfold read_notebook. destruct (fs s !! copy_notebook) as [[] |]; discriminate. }
  intros cells. apply no_exit_bind; [apply no_exit_lift | intros new_cells].
  apply no_exit_modify.
Qed.

(** C6.  When the output directory exists already the command ends by
    [sys.exit(1)] with the file system and the log as they were: no directory
    is made, no file created or overwritten, no record written.  And no other
    exit happens: a run that ends by [sys.exit] ends with code 1, found the
    directory present, and left files and log untouched. *)
Theorem existing_output_directory_exits_with_1 w fuel output wait_after_execute copy_notebook s :
  (is_Some (fs s !! output_directory w output s) →
     ∃ s', monitor w fuel output wait_after_execute copy_notebook s = Exited 1 s'
       ∧ fs s' = fs s ∧ log_disk s' = log_disk s ∧ log_buffer s' = log_buffer s)
  ∧ (∀ code s', monitor w fuel output wait_after_execute copy_notebook s = Exited code s' →
       code = 1 ∧ is_Some (fs s !! output_directory w output s)
       ∧ fs s' = fs s ∧ log_disk s' = log_disk s ∧ log_buffer s' = log_buffer s).
Proof.
  set (tail_of o :=
         (makedirs o ≫= λ _,
          modify (set_last_screenshot (λ _, ∅)) ≫= λ _,
          with_open_log (Py.path_join o "event_log.csv")
            (monitor_session w fuel o wait_after_execute) ≫= λ _,
          match given copy_notebook with
          | Some path =>
              write_profiled_notebook_copy o (Py.path_join o "event_log.csv") path
          | None => mret tt
          end) : M unit).
  assert (Htail : ∀ o, no_exit (tail_of o)).
  { intros o. unfold tail_of.
    apply no_exit_bind.
    { unfold makedirs. destruct (bool_decide _); [apply no_exit_raise | apply no_exit_modify]. }
    intros _. apply no_exit_bind; [apply no_exit_modify | intros _].
    apply no_exit_bind.
    { apply no_exit_with_open_log, no_exit_monitor_session. }
    intros _. destruct (given copy_notebook);
      [apply no_exit_write_profiled_notebook_copy | apply no_exit_ret]. }
  assert (Hrun : ∃ s1, fs s1 = fs s ∧ log_disk s1 = log_disk s ∧ log_buffer s1 = log_buffer s
            ∧ monitor w fuel output wait_after_execute copy_notebook s
              = if bool_decide (is_Some (fs s !! output_directory w output s))
                then Exited 1 s1 else tail_of (output_directory w output s) s1).
  { destruct output as [o |]; simpl.
    - exists s. repeat split. unfold monitor, path_exists. unfold_monad. simpl.
      destruct (bool_decide _); reflexivity.
    - exists (next_tick s). repeat split. unfold monitor, path_exists, isotime.
      unfold_monad. simpl. destruct (bool_decide _); reflexivity. }
  destruct Hrun as (s1 & Hfs & Hdisk & Hbuf & Hrun).
  split.
  - intros Hex. exists s1. rewrite Hrun, (bool_decide_eq_true_2 _ Hex). auto.
  - intros code s' Hexit. rewrite Hrun in Hexit.
    destruct (bool_decide (is_Some (fs s !! output_directory w output s))) eqn:Hb.
    + injection Hexit as <- <-. apply bool_decide_eq_true_1 in Hb. auto.
    + exfalso. exact (Htail _ _ _ _ Hexit).
Qed.

Lemma existing_output_directory_exits_with_1_witness :
  is_Some (fs sample_state !! "out")
  ∧ ∃ s', monitor sample_world 10 (Some "out") 3 None sample_state = Exited 1 s'
      ∧ fs s' = fs sample_state ∧ log_disk s' = log_disk sample_state
      ∧ log_buffer s' = log_buffer sample_state.
Proof.
  assert (Hex : is_Some (fs sample_state !! "out")) by (eexists; reflexivity).
  split; [exact Hex |].
  exact (proj1 (existing_output_directory_exits_with_1 sample_world 10 (Some "out") 3 None
                  sample_state) Hex).
Defined.

(** ** Grouping the log *)

Lemma fold_result_app {A S} (f : S → A → result S) (s : S) (l1 l2 : list A) :
  fold_result f s (l1 ++ l2) = fold_result f s l1 ≫= λ s', fold_result f s' l2.
Proof.
  revert s. induction l1 as [| x l1 IH]; intros s; simpl; [reflexivity |].
  unfold mbind, result_bind. destruct (f s x) as [s' | e]; [apply IH | reflexivity].
Qed.

(** C3.  For the log execute-input(0, t0), output-changed(0, t1),
    output-changed(0, t2), times being read off their ISO strings: the
    records carry the times elapsed since the first one (0, t1 - t0, t2 - t0),
    the two output-changed records are grouped under cell 0, in order, and
    cell 0 has total = t2 - t0 and n_updates = 2. *)
Theorem three_record_log_profile (s0 s1 s2 p0 p1 p2 : string) (t0 t1 t2 : Z) :
  fromisoformat s0 = Some t0 → fromisoformat s1 = Some t1 → fromisoformat s2 = Some t2 →
  profiles [ header_line;
             event_line (LogRow s0 "execute-input" 0 p0);
             event_line (LogRow s1 "output-changed" 0 p1);
             event_line (LogRow s2 "output-changed" 0 p2) ]
  = Ok [ (0, Profile
               (Group (Row 0 "execute-input" 0 p0)
                      [ ChangedDict (Row (t1 - t0) "output-changed" 0 p1) 0 (t1 - t0);
                        ChangedDict (Row (t2 - t0) "output-changed" 0 p2) 0 (t2 - t0) ])
               (Some (t2 - t0)) (Some 2)) ].
Proof.
  intros H0 H1 H2.
  unfold profiles, recfromcsv, data_rows, squeeze, elapsed_times, elapsed_since_first. simpl.
  rewrite H0, H1, H2. simpl.
  replace (t0 - t0) with 0 by lia.
  unfold group_rows, group_from. simpl.
  replace (t1 - t0 - 0) with (t1 - t0) by lia.
  replace (t2 - t0 - 0) with (t2 - t0) by lia.
  reflexivity.
Qed.

Lemma three_record_log_profile_witness :
  ∃ g, profiles sample_log = Ok [(0, Profile g (Some 4000000) (Some 2))].
Proof.
  eexists.
  exact (three_record_log_profile
           "2024-05-17T10:00:00.250000" "2024-05-17T10:00:01.750000"
           "2024-05-17T10:00:04.250000"
           "out/input-000.png" "out/output-000-a.png" "out/output-000-b.png"
           63877975200250000 63877975201750000 63877975204250000
           eq_refl eq_refl eq_refl).
Defined.

Lemma results_get_app {V} (k k' : Z) (v : V) (results : list (Z * V)) :
  results_get k (results ++ [(k', v)])
  = match results_get k results with
    | Some x => Some x
    | None => if decide (k' = k) then Some v else None
    end.
Proof.
  induction results as [| [k0 v0] results IH]; simpl; [reflexivity |].
  destruct (decide (k0 = k)); [reflexivity | exact IH].
Qed.

Lemma results_get_alter {V} (f : V → V) (k c : Z) (results : list (Z * V)) :
  results_get k (results_alter f c results)
  = if decide (c = k) then f <$> results_get k results else results_get k results.
Proof.
  induction results as [| [k0 v0] results IH]; simpl.
  - destruct (decide (c = k)); reflexivity.
  - destruct (decide (k0 = c)) as [-> | Hne]; simpl.
    + destruct (decide (c = k)); reflexivity.
    + destruct (decide (k0 = k)) as [-> | Hne'].
      * destruct (decide (c = k)); [congruence | reflexivity].
      * exact IH.
Qed.

Lemma results_alter_nil_inv {V} (f : V → V) (c : Z) (results : list (Z * V)) :
  results_alter f c results = [] → results = [].
Proof.
  destruct results as [| [k v] results]; simpl; [reflexivity |].
  destruct (decide (k = c)); discriminate.
Qed.

(** A new execute-input record opens a group and becomes the last executed
    cell. *)
Lemma group_step_new_cell results last r :
  r_event r = "execute-input" → results_get (r_index r) results = None →
  group_step (results, last) r = Ok (results ++ [(r_index r, Group r [])], Some (r_index r)).
Proof.
  intros He Hn. unfold group_step.
  rewrite (bool_decide_eq_true_2 _ Hn), (bool_decide_eq_true_2 _ He). reflexivity.
Qed.

(** An execute-input record whose index has a group already changes
    nothing. *)
Lemma group_step_known_cell results last r :
  r_event r = "execute-input" → is_Some (results_get (r_index r) results) →
  group_step (results, last) r = Ok (results, last).
Proof.
  intros He [g Hg]. unfold group_step.
  rewrite bool_decide_eq_false_2 by (rewrite Hg; discriminate). simpl.
  rewrite bool_decide_eq_false_2 by (rewrite He; discriminate).
  reflexivity.
Qed.

(** An output-changed record goes to the group of the last executed cell,
    timed from the execute-input record kept there. *)
Lemma group_step_output_changed results c g r :
  r_event r = "output-changed" → results_get c results = Some g →
  group_step (results, Some c) r
  = Ok (results_alter
          (append_changed (ChangedDict r c (r_time r - r_time (execute_input g)))) c results,
        Some c).
Proof.
  intros He Hg. unfold group_step.
  rewrite (bool_decide_eq_false_2 (r_event r = "execute-input"))
    by (rewrite He; discriminate).
  rewrite andb_false_r, (bool_decide_eq_true_2 _ He). simpl.
  unfold mbind, result_bind. rewrite Hg. reflexivity.
Qed.

(** An output-changed record with no cell executed yet: [results[None]]. *)
Lemma group_step_no_cell results r :
  r_event r = "output-changed" → group_step (results, None) r = Err KeyError.
Proof.
  intros He. unfold group_step.
  rewrite (bool_decide_eq_false_2 (r_event r = "execute-input"))
    by (rewrite He; discriminate).
  rewrite andb_false_r, (bool_decide_eq_true_2 _ He). reflexivity.
Qed.

(** Any other record is passed over. *)
Lemma group_step_other st r :
  r_event r ≠ "execute-input" → r_event r ≠ "output-changed" → group_step st r = Ok st.
Proof.
  intros H1 H2. destruct st as [results last]. unfold group_step.
  rewrite (bool_decide_eq_false_2 _ H1), andb_false_r, (bool_decide_eq_false_2 _ H2).
  reflexivity.
Qed.

Lemma group_step_invariant st r :
  grouping_invariant st → (r_event r = "output-changed" → st.2 ≠ None) →
  ∃ st', group_step st r = Ok st' ∧ grouping_invariant st'
         ∧ (st.2 ≠ None → st'.2 ≠ None)
         ∧ (r_event r = "execute-input" → st'.2 ≠ None).
Proof.
  destruct st as [results last]. intros [Hnone Hsome] Hout. cbn [fst snd] in *.
  destruct (decide (r_event r = "execute-input")) as [He | He].
  - destruct (results_get (r_index r) results) as [g |] eqn:Hg.
    + rewrite (group_step_known_cell results last r He) by (rewrite Hg; eauto).
      eexists. split; [reflexivity |]. split; [split; assumption |]. split; [auto |].
      intros _ Hl. simpl in Hl. rewrite (Hnone Hl) in Hg. discriminate.
    + rewrite (group_step_new_cell results last r He Hg).
      eexists. split; [reflexivity |]. split; [| split; intros; discriminate].
      split; simpl; [discriminate |].
      intros c [= <-]. rewrite results_get_app, Hg, decide_True by reflexivity. eauto.
  - destruct (decide (r_event r = "output-changed")) as [Ho | Ho].
    + destruct last as [c |]; [| exfalso; exact (Hout Ho eq_refl)].
      destruct (Hsome c eq_refl) as [g Hg].
      rewrite (group_step_output_changed results c g r Ho Hg).
      eexists. split; [reflexivity |]. split; [| split; [auto | contradiction]].
      split; simpl; [discriminate |].
      intros c' [= <-]. rewrite results_get_alter, decide_True, Hg by reflexivity.
      simpl. eauto.
    + rewrite (group_step_other _ r He Ho).
      eexists. split; [reflexivity |]. split; [split; assumption |]. split; [auto | contradiction].
Qed.

Lemma group_from_succeeds log : ∀ st,
  grouping_invariant st →
  (∀ k r, log !! k = Some r → r_event r = "output-changed" →
     st.2 ≠ None ∨ ∃ j r', (j < k)%nat ∧ log !! j = Some r' ∧ r_event r' = "execute-input") →
  ∃ st', group_from st log = Ok st'.
Proof.
  induction log as [| r log IH]; intros st Hinv Hpre.
  - exists st. reflexivity.
  - destruct (group_step_invariant st r Hinv) as (st1 & Hstep & Hinv1 & Hkeep & Hexec).
    { intros Ho. destruct (Hpre 0%nat r eq_refl Ho) as [H | (j & r' & Hj & _)]; [exact H | lia]. }
    unfold group_from in *. simpl. rewrite Hstep. simpl.
    apply IH; [exact Hinv1 |].
    intros k r1 Hk Ho.
    destruct (Hpre (S k) r1 Hk Ho) as [H | (j & r' & Hj & Hlook & He)].
    + left. auto.
    + destruct j as [| j].
      * left. injection Hlook as <-. auto.
      * right. exists j, r'. repeat split; [lia | exact Hlook | exact He].
Qed.

Lemma group_from_before_any_execution pre :
  Forall (λ x, r_event x ≠ "execute-input") pre →
  group_from ([], None) pre = Ok ([], None) ∨ group_from ([], None) pre = Err KeyError.
Proof.
  induction 1 as [| r pre Hr _ IH]; [left; reflexivity |].
  unfold group_from in *. cbn [fold_result].
  destruct (decide (r_event r = "output-changed")) as [Ho | Ho].
  - right. rewrite (group_step_no_cell [] r Ho). reflexivity.
  - rewrite (group_step_other _ r Hr Ho). exact IH.
Qed.

(** C9.  An output-changed record that no execute-input record precedes (the
    first data row, for one) makes the grouping fail with the [KeyError] of
    [results[None]]; and when every output-changed record has an
    execute-input record before it, the grouping succeeds: the failing look-up
    is never reached. *)
Theorem output_changed_needs_executed_cell :
  (∀ pre r post,
     Forall (λ x, r_event x ≠ "execute-input") pre → r_event r = "output-changed" →
     group_rows (pre ++ r :: post) = Err KeyError)
  ∧ (∀ log,
       (∀ k r, log !! k = Some r → r_event r = "output-changed" →
          ∃ j r', (j < k)%nat ∧ log !! j = Some r' ∧ r_event r' = "execute-input") →
       ∃ results, group_rows log = Ok results).
Proof.
  split.
  - intros pre r post Hpre Ho. unfold group_rows, group_from.
    rewrite fold_result_app.
    destruct (group_from_before_any_execution pre Hpre) as [H | H];
      unfold group_from in H; rewrite H; [| reflexivity].
    cbn [mbind result_bind fold_result].
    rewrite (group_step_no_cell [] r Ho). reflexivity.
  - intros log Hpre.
    destruct (group_from_succeeds log ([], None)) as [st' Hst'].
    + split; [reflexivity | intros c; discriminate].
    + intros k r Hk Ho. right. exact (Hpre k r Hk Ho).
    + exists st'.1. unfold group_rows. rewrite Hst'. reflexivity.
Qed.

Lemma output_changed_needs_executed_cell_witness :
  group_rows [Row 0 "output-changed" 7 "out/output-007.png";
              Row 10 "execute-input" 0 "out/input-000.png"] = Err KeyError
  ∧ ∃ results, group_rows [Row 0 "execute-input" 0 "out/input-000.png";
                           Row 10 "output-changed" 7 "out/output-007.png"] = Ok results.
Proof.
  split.
  - exact (proj1 output_changed_needs_executed_cell []
             (Row 0 "output-changed" 7 "out/output-007.png")
             [Row 10 "execute-input" 0 "out/input-000.png"] (Forall_nil_2 _) eq_refl).
  - apply (proj2 output_changed_needs_executed_cell).
    intros k r Hk Ho.
    destruct k as [| [| k]]; simpl in Hk; try discriminate.
    + injection Hk as <-. discriminate Ho.
    + exists 0%nat. eexists. split; [lia |]. split; reflexivity.
Defined.

(** The keys of [results] are never removed, and an execute-input record
    finds its index among them once it has been processed. *)
Lemma group_step_keys st r st' :
  group_step st r = Ok st' →
  (∀ k, is_Some (results_get k st.1) → is_Some (results_get k st'.1))
  ∧ (r_event r = "execute-input" → is_Some (results_get (r_index r) st'.1)).
Proof.
  destruct st as [results last]. cbn [fst snd].
  destruct (decide (r_event r = "execute-input")) as [He | He].
  - destruct (results_get (r_index r) results) as [g |] eqn:Hg.
    + rewrite (group_step_known_cell results last r He) by (rewrite Hg; eauto).
      intros [= <-]. cbn [fst]. split; [auto | rewrite Hg; eauto].
    + rewrite (group_step_new_cell results last r He Hg).
      intros [= <-]. cbn [fst]. split.
      * intros k [v Hv]. rewrite results_get_app, Hv. eauto.
      * intros _. rewrite results_get_app, Hg, decide_True by reflexivity. eauto.
  - destruct (decide (r_event r = "output-changed")) as [Ho | Ho].
    + destruct last as [c |]; [| rewrite (group_step_no_cell results r Ho); discriminate].
      destruct (results_get c results) as [g |] eqn:Hg.
      * rewrite (group_step_output_changed results c g r Ho Hg).
        intros [= <-]. cbn [fst]. split; [| contradiction].
        intros k [v Hv]. rewrite results_get_alter, Hv.
        destruct (decide (c = k)); simpl; eauto.
      * unfold group_step.
        rewrite (bool_decide_eq_false_2 _ He), andb_false_r, (bool_decide_eq_true_2 _ Ho).
        simpl. unfold mbind, result_bind. rewrite Hg. discriminate.
    + rewrite (group_step_other _ r He Ho). intros [= <-]. split; [auto | contradiction].
Qed.

Lemma group_from_keys log : ∀ st st',
  group_from st log = Ok st' →
  (∀ k, is_Some (results_get k st.1) → is_Some (results_get k st'.1))
  ∧ (∀ r, r ∈ log → r_event r = "execute-input" → is_Some (results_get (r_index r) st'.1)).
Proof.
  induction log as [| r0 log IH]; intros st st' Hrun.
  - injection Hrun as <-. split; [auto |]. intros r Hr. inversion Hr.
  - unfold group_from in *. cbn [fold_result] in Hrun.
    destruct (group_step st r0) as [st1 | e] eqn:Hstep; [| discriminate].
    cbn [mbind result_bind] in Hrun.
    destruct (group_step_keys st r0 st1 Hstep) as [Hmono Hnew].
    destruct (IH st1 st' Hrun) as [Hmono' Hnew'].
    split; [auto |].
    intros r Hr He. apply elem_of_cons in Hr as [-> | Hr]; [auto | exact (Hnew' r Hr He)].
Qed.

(** C10, as the code has it.  A later execute-input record whose index has a
    group already is ignored altogether: the grouping loop passes over it
    with [results] and the last executed cell unchanged, so the grouping of
    the log is that of the log without the record.  The output-changed
    records after it go, like any other, to the group of the cell that was
    last executed, timed from the execute-input record kept for that cell. *)
Theorem repeated_execute_input_is_ignored :
  (∀ results last r,
     r_event r = "execute-input" → is_Some (results_get (r_index r) results) →
     group_step (results, last) r = Ok (results, last))
  ∧ (∀ pre r post earlier,
       earlier ∈ pre → r_event earlier = "execute-input" → r_event r = "execute-input" →
       r_index earlier = r_index r →
       group_rows (pre ++ r :: post) = group_rows (pre ++ post))
  ∧ (∀ results c g r,
       r_event r = "output-changed" → results_get c results = Some g →
       group_step (results, Some c) r
       = Ok (results_alter
               (append_changed (ChangedDict r c (r_time r - r_time (execute_input g))))
               c results,
             Some c)).
Proof.
  split; [exact group_step_known_cell |]. split; [| exact group_step_output_changed].
  intros pre r post earlier Hin Hee He Hidx.
  unfold group_rows, group_from. rewrite !fold_result_app.
  destruct (fold_result group_step ([], None) pre) as [[results last] | e] eqn:Hpre;
    [| reflexivity].
  cbn [mbind result_bind fold_result].
  destruct (group_from_keys pre _ _ Hpre) as [_ Hkey].
  specialize (Hkey earlier Hin Hee). rewrite Hidx in Hkey. cbn [fst] in Hkey.
  rewrite (group_step_known_cell results last r He Hkey). reflexivity.
Qed.

Lemma repeated_execute_input_is_ignored_witness :
  group_rows [Row 0 "execute-input" 0 "a.png"; Row 5 "execute-input" 0 "b.png";
              Row 9 "output-changed" 0 "c.png"]
  = group_rows [Row 0 "execute-input" 0 "a.png"; Row 9 "output-changed" 0 "c.png"].
Proof.
  exact (proj1 (proj2 repeated_execute_input_is_ignored)
           [Row 0 "execute-input" 0 "a.png"] (Row 5 "execute-input" 0 "b.png")
           [Row 9 "output-changed" 0 "c.png"] (Row 0 "execute-input" 0 "a.png")
           (list_elem_of_here _ _) eq_refl eq_refl eq_refl).
Defined.

(** C10, as stated, fails.  In the log execute-input(0), execute-input(1),
    execute-input(0), output-changed the third record repeats the index of the
    first and no execute-input record stands between it and the
    output-changed record; yet that record goes to the group of cell 1, timed
    from the execution of cell 1, and the group of cell 0 stays empty. *)
Lemma repeated_execute_input_counterexample :
  group_rows [Row 0 "execute-input" 0 "a.png"; Row 10 "execute-input" 1 "b.png";
              Row 20 "execute-input" 0 "c.png"; Row 30 "output-changed" 4 "d.png"]
  = Ok [(0, Group (Row 0 "execute-input" 0 "a.png") []);
        (1, Group (Row 10 "execute-input" 1 "b.png")
              [ChangedDict (Row 30 "output-changed" 4 "d.png") 1 20])]
  ∧ ¬ (∀ (log : list row) (i j k : nat) (ri rj rk : row) (results : list (Z * group)),
         (i < j < k)%nat →
         log !! i = Some ri → log !! j = Some rj → log !! k = Some rk →
         r_event ri = "execute-input" → r_event rj = "execute-input" →
         r_index ri = r_index rj →
         (∀ i' r', (i' < i)%nat → log !! i' = Some r' → r_index r' ≠ r_index ri) →
         (∀ j' r', (j < j' < k)%nat → log !! j' = Some r' → r_event r' ≠ "execute-input") →
         r_event rk = "output-changed" →
         group_rows log = Ok results →
         ∃ g, results_get (r_index ri) results = Some g
              ∧ ChangedDict rk (r_index ri) (r_time rk - r_time ri) ∈ output_changed g).
Proof.
  split; [reflexivity |].
  intros Hclaim.
  destruct (Hclaim
              [Row 0 "execute-input" 0 "a.png"; Row 10 "execute-input" 1 "b.png";
               Row 20 "execute-input" 0 "c.png"; Row 30 "output-changed" 4 "d.png"]
              0%nat 2%nat 3%nat _ _ _ _ ltac:(lia) eq_refl eq_refl eq_refl eq_refl eq_refl
              eq_refl ltac:(intros; lia) ltac:(intros; lia) eq_refl eq_refl)
    as (g & Hg & Hin).
  simpl in Hg. injection Hg as <-. simpl in Hin. inversion Hin.
Qed.

(** ** Timings and annotations *)











(** ** Weaving the annotations into the notebook *)

Lemma getitem_nat {A} (l : list A) (n : nat) : Py.getitem l (Z.of_nat n) = l !! n.
Proof.
  unfold Py.getitem.
  destruct (decide (n < length l)%nat) as [Hlt | Hge].
  - replace (0 <=? Z.of_nat n) with true by (symmetry; apply Z.leb_le; lia).
    replace (Z.of_nat n <? Z.of_nat (length l)) with true by (symmetry; apply Z.ltb_lt; lia).
    simpl. rewrite Nat2Z.id. reflexivity.
  - replace (Z.of_nat n <? Z.of_nat (length l)) with false by (symmetry; apply Z.ltb_ge; lia).
    rewrite andb_false_r.
    replace (Z.of_nat n <? 0) with false by (symmetry; apply Z.ltb_ge; lia).
    rewrite andb_false_r. symmetry. apply lookup_ge_None. lia.
Qed.

Lemma count_nonempty_code_cons c cells :
  count_nonempty_code (c :: cells)
  = ((if nonempty_code c then 1 else 0) + count_nonempty_code cells)%nat.
Proof.
  unfold count_nonempty_code. rewrite filter_cons.
  destruct (nonempty_code c); [rewrite decide_True by reflexivity
                              | rewrite decide_False by discriminate]; reflexivity.
Qed.

Lemma weave_step_code annotations new_cells i c :
  nonempty_code c = true →
  weave_step annotations (new_cells, i) c
  = or_raise IndexError (Py.getitem annotations (i + 1)) ≫= λ a,
      Ok ((new_cells ++ [c]) ++ [new_markdown_cell a], i + 1).
Proof. intros Hc. unfold weave_step. rewrite Hc. reflexivity. Qed.

Lemma weave_step_other annotations new_cells i c :
  nonempty_code c = false →
  weave_step annotations (new_cells, i) c = Ok (new_cells ++ [c], i).
Proof. intros Hc. unfold weave_step. rewrite Hc. reflexivity. Qed.

(** The loop of lines 264-272 from any of its states: [n] annotations have
    been placed and [new_cells] built so far. *)
Lemma weave_from_enough annotations cells : ∀ (new_cells : list cell) (n : nat),
  (n + count_nonempty_code cells ≤ length annotations)%nat →
  fold_result (weave_step annotations) (new_cells, Z.of_nat n - 1) cells
  = Ok (new_cells ++ (woven_cell <$> interleave (drop n annotations) cells),
        Z.of_nat (n + count_nonempty_code cells) - 1).
Proof.
  induction cells as [| c cells IH]; intros new_cells n Hlen.
  - cbn [fold_result interleave fmap list_fmap]. unfold count_nonempty_code. simpl.
    rewrite app_nil_r, Nat.add_0_r. reflexivity.
  - rewrite count_nonempty_code_cons in *.
    cbn [fold_result interleave].
    destruct (nonempty_code c) eqn:Hc.
    + rewrite (weave_step_code _ _ _ _ Hc).
      replace (Z.of_nat n - 1 + 1) with (Z.of_nat n) by lia.
      rewrite getitem_nat.
      destruct (annotations !! n) as [a |] eqn:Ha;
        [| apply lookup_ge_None in Ha; lia].
      cbn [or_raise mbind result_bind].
      replace (Z.of_nat n) with (Z.of_nat (S n) - 1) by lia.
      rewrite IH by lia.
      rewrite (drop_S annotations a n Ha). cbn [fmap list_fmap woven_cell].
      rewrite <- !app_assoc. cbn [app].
      replace (S n + count_nonempty_code cells)%nat
        with (n + (1 + count_nonempty_code cells))%nat by lia.
      reflexivity.
    + rewrite (weave_step_other _ _ _ _ Hc). cbn [mbind result_bind].
      rewrite IH by lia. cbn [fmap list_fmap woven_cell]. rewrite <- !app_assoc.
      reflexivity.
Qed.

Lemma weave_from_too_few annotations cells : ∀ (new_cells : list cell) (n : nat),
  (n ≤ length annotations)%nat →
  (length annotations < n + count_nonempty_code cells)%nat →
  fold_result (weave_step annotations) (new_cells, Z.of_nat n - 1) cells = Err IndexError.
Proof.
  induction cells as [| c cells IH]; intros new_cells n Hn Hlen.
  - unfold count_nonempty_code in Hlen. simpl in Hlen. lia.
  - rewrite count_nonempty_code_cons in *.
    cbn [fold_result].
    destruct (nonempty_code c) eqn:Hc.
    + rewrite (weave_step_code _ _ _ _ Hc).
      replace (Z.of_nat n - 1 + 1) with (Z.of_nat n) by lia.
      rewrite getitem_nat.
      destruct (annotations !! n) as [a |] eqn:Ha; [| reflexivity].
      cbn [or_raise mbind result_bind].
      replace (Z.of_nat n) with (Z.of_nat (S n) - 1) by lia.
      apply lookup_lt_Some in Ha. apply IH; lia.
    + rewrite (weave_step_other _ _ _ _ Hc). cbn [mbind result_bind].
      apply IH; [exact Hn | lia].
Qed.

Lemma interleave_originals cells : ∀ annotations,
  originals (interleave annotations cells) = cells.
Proof.
  unfold originals.
  induction cells as [| c cells IH]; intros annotations; [reflexivity |].
  cbn [interleave]. destruct (nonempty_code c); [destruct annotations as [| a rest] |];
    cbn [omap list_omap]; rewrite IH; reflexivity.
Qed.

Lemma interleave_placed cells : ∀ annotations,
  placed_annotations (interleave annotations cells)
  = take (count_nonempty_code cells) annotations.
Proof.
  unfold placed_annotations, count_nonempty_code.
  induction cells as [| c cells IH]; intros annotations; [reflexivity |].
  cbn [interleave]. rewrite filter_cons.
  destruct (nonempty_code c) eqn:Hc.
  - rewrite decide_True by reflexivity.
    destruct annotations as [| a rest]; cbn [omap list_omap length take].
    + rewrite IH. rewrite take_nil. reflexivity.
    + rewrite IH. reflexivity.
  - rewrite decide_False by congruence. cbn [omap list_omap]. apply IH.
Qed.

(** With annotations enough, a cell of the source notebook is followed by an
    annotation exactly when it is a non-empty code cell, and every annotation
    stands right after such a cell. *)
Lemma interleave_adjacent cells : ∀ annotations,
  (count_nonempty_code cells ≤ length annotations)%nat →
  (∀ k c, interleave annotations cells !! k = Some (original c) →
     nonempty_code c = true ↔ ∃ a, interleave annotations cells !! S k = Some (synthesized a))
  ∧ (∀ k a, interleave annotations cells !! k = Some (synthesized a) →
       ∃ k' c, k = S k' ∧ interleave annotations cells !! k' = Some (original c)
               ∧ nonempty_code c = true).
Proof.
  unfold count_nonempty_code.
  induction cells as [| c cells IH]; intros annotations Hlen.
  - split; intros k x Hk; discriminate.
  - cbn [interleave]. rewrite filter_cons in Hlen.
    assert (Hhead : ∀ l b, (original c :: l) !! 1%nat = Some (synthesized b) →
              (∃ rest, l = synthesized b :: rest)).
    { intros l b Hl. destruct l as [| y l]; [discriminate |]. injection Hl as ->. eauto. }
    assert (Hnext : ∀ annotations', ∀ b,
              interleave annotations' cells !! 0%nat ≠ Some (synthesized b)).
    { intros annotations' b. destruct cells as [| c' cells']; [discriminate |].
      cbn [interleave]. destruct (nonempty_code c'); [destruct annotations' |]; discriminate. }
    destruct (nonempty_code c) eqn:Hc.
    + rewrite decide_True in Hlen by reflexivity. cbn [length] in Hlen.
      destruct annotations as [| a rest]; [simpl in Hlen; lia |].
      cbn [length] in Hlen. destruct (IH rest ltac:(lia)) as [IH1 IH2].
      split.
      * intros [| [| k]] c0 Hk.
        -- injection Hk as <-. split; [intros _; exists a; reflexivity | intros _; exact Hc].
        -- discriminate.
        -- exact (IH1 k c0 Hk).
      * intros [| [| k]] b Hk.
        -- discriminate.
        -- exists 0%nat, c. repeat split. exact Hc.
        -- destruct (IH2 k b Hk) as (k' & c' & -> & Hk' & Hc').
           exists (S (S k')), c'. repeat split; assumption.
    + rewrite decide_False in Hlen by congruence.
      destruct (IH annotations Hlen) as [IH1 IH2].
      split.
      * intros [| k] c0 Hk.
        -- injection Hk as <-. split; [congruence |].
           intros [b Hb]. exfalso. exact (Hnext annotations b Hb).
        -- exact (IH1 k c0 Hk).
      * intros [| k] b Hk; [discriminate |].
        destruct (IH2 k b Hk) as (k' & c' & -> & Hk' & Hc').
        exists (S k'), c'. repeat split; assumption.
Qed.

(** C4.  When the annotations are fewer than the non-empty code cells the
    merge fails with an [IndexError].  Otherwise it yields the cells of the
    source notebook in their order with one synthesized markdown cell right
    after each non-empty code cell and nowhere else: as many synthesized cells
    as non-empty code cells, carrying the first annotations in order. *)
Theorem weave_places_one_annotation_per_code_cell annotations cells :
  ((length annotations < count_nonempty_code cells)%nat →
     weave annotations cells = Err IndexError)
  ∧ ((count_nonempty_code cells ≤ length annotations)%nat →
       weave annotations cells = Ok (woven_cell <$> interleave annotations cells)
       ∧ originals (interleave annotations cells) = cells
       ∧ length (filter (λ x, is_synthesized x = true) (interleave annotations cells))
         = count_nonempty_code cells
       ∧ placed_annotations (interleave annotations cells)
         = take (count_nonempty_code cells) annotations
       ∧ (∀ k c, interleave annotations cells !! k = Some (original c) →
            nonempty_code c = true
            ↔ ∃ a, interleave annotations cells !! S k = Some (synthesized a))
       ∧ (∀ k a, interleave annotations cells !! k = Some (synthesized a) →
            ∃ k' c, k = S k' ∧ interleave annotations cells !! k' = Some (original c)
                    ∧ nonempty_code c = true)).
Proof.
  split.
  - intros Hlt. unfold weave.
    pose proof (weave_from_too_few annotations cells [] 0 ltac:(lia) ltac:(lia)) as Hrun.
    change (Z.of_nat 0 - 1) with (-1) in Hrun. rewrite Hrun. reflexivity.
  - intros Hle. split; [| split; [| split; [| split]]].
    + unfold weave.
      pose proof (weave_from_enough annotations cells [] 0 ltac:(lia)) as Hrun.
      change (Z.of_nat 0 - 1) with (-1) in Hrun. rewrite Hrun, drop_0. reflexivity.
    + apply interleave_originals.
    + rewrite <- (length_take_le annotations (count_nonempty_code cells)) by exact Hle.
      rewrite <- interleave_placed. unfold placed_annotations.
      generalize (interleave annotations cells). intros l.
      induction l as [| [c | a] l IH]; [reflexivity | |].
      * rewrite filter_cons, decide_False by discriminate. exact IH.
      * rewrite filter_cons, decide_True by reflexivity. cbn. rewrite IH. reflexivity.
    + apply interleave_placed.
    + exact (interleave_adjacent cells annotations Hle).
Qed.

Lemma weave_places_one_annotation_per_code_cell_witness :
  weave ["only one"] sample_notebook = Err IndexError
  ∧ weave ["first"; "second"] sample_notebook
    = Ok (woven_cell <$> interleave ["first"; "second"] sample_notebook).
Proof.
  split.
  - apply (proj1 (weave_places_one_annotation_per_code_cell ["only one"] sample_notebook)).
    vm_compute. lia.
  - apply (proj2 (weave_places_one_annotation_per_code_cell ["first"; "second"]
                    sample_notebook)).
    vm_compute. lia.
Defined.

(** ** The end of a run *)

Lemma stable_const {A} (m : M A) : stable (λ _, m).
Proof. intros fuel fuel' s _ _. reflexivity. Qed.

Lemma stable_bind {A B} (m : nat → M A) (f : nat → A → M B) :
  stable m → (∀ a, stable (λ fuel, f fuel a)) → stable (λ fuel, m fuel ≫= f fuel).
Proof.
  intros Hm Hf fuel fuel' s Hle Hend. unfold mbind, M_bind in *.
  destruct (m fuel s) as [a s1 | e s1 | c s1 |] eqn:Hms; try congruence;
    rewrite (Hm fuel fuel' s Hle) by congruence; rewrite Hms; try reflexivity.
  exact (Hf a fuel fuel' s1 Hle Hend).
Qed.

Lemma halts_bind {A B} (m : nat → M A) (f : nat → A → M B) s :
  stable m → (∀ a, stable (λ fuel, f fuel a)) →
  halts m s → (∀ fuel a s', m fuel s = Done a s' → halts (λ fuel, f fuel a) s') →
  halts (λ fuel, m fuel ≫= f fuel) s.
Proof.
  intros Hm Hf [fuel1 H1] Hnext. unfold halts, mbind, M_bind.
  destruct (m fuel1 s) as [a s1 | e s1 | c s1 |] eqn:Hms; try congruence.
  - destruct (Hnext fuel1 a s1 Hms) as [fuel2 H2].
    exists (fuel1 `max` fuel2)%nat.
    rewrite (Hm fuel1 _ s (Nat.le_max_l _ _)) by congruence. rewrite Hms.
    rewrite (Hf a fuel2 _ s1 (Nat.le_max_r _ _) H2). exact H2.
  - exists fuel1. rewrite Hms. discriminate.
  - exists fuel1. rewrite Hms. discriminate.
Qed.

Lemma halts_const {A} (m : M A) s : m s ≠ OutOfFuel → halts (λ _, m) s.
Proof. intros H. exists 0%nat. exact H. Qed.

Lemma stable_for_each_from {A} (body : nat → nat → A → M unit) (l : list A) :
  (∀ i x, stable (λ fuel, body fuel i x)) →
  ∀ i, stable (λ fuel, for_each_from i l (body fuel)).
Proof.
  intros Hb. induction l as [| x l IH]; intros i; cbn [for_each_from].
  - apply stable_const.
  - apply (stable_bind (λ fuel, body fuel i x) (λ fuel _, for_each_from (S i) l (body fuel))).
    + apply Hb.
    + intros _. apply IH.
Qed.

Lemma halts_for_each_from {A} (body : nat → nat → A → M unit) (l : list A) :
  (∀ i x, stable (λ fuel, body fuel i x)) →
  (∀ i x s, halts (λ fuel, body fuel i x) s) →
  ∀ i s, halts (λ fuel, for_each_from i l (body fuel)) s.
Proof.
  intros Hst Hb. induction l as [| x l IH]; intros i s; cbn [for_each_from].
  - apply halts_const. discriminate.
  - apply (halts_bind (λ fuel, body fuel i x) (λ fuel _, for_each_from (S i) l (body fuel))).
    + apply Hst.
    + intros _. apply stable_for_each_from, Hst.
    + apply Hb.
    + intros fuel [] s' _. apply IH.
Qed.

(** Scanning the output cells ends, and the count of consultations does not
    go back. *)
Lemma watch_output_cell_ends w output c s :
  watch_output_cell w output c s ≠ OutOfFuel
  ∧ ∀ s', watch_output_cell w output c s = Done tt s' → (tick s ≤ tick s')%nat.
Proof.
  destruct (watch_output_cell_cases w output c s)
    as [H | [H | (d & st & b & _ & _ & _ & _ & _ & H)]]; rewrite H.
  - split; [discriminate | intros s' [= <-]; lia].
  - split; [discriminate | intros s' [=]].
  - rewrite record_if_changed_eq. destruct (decide _).
    + split; [discriminate | intros s' [= <-]; simpl; lia].
    + split; [discriminate | intros s' [= <-]; lia].
Qed.

Lemma scan_ends w output cells : ∀ s,
  for_each cells (watch_output_cell w output) s ≠ OutOfFuel
  ∧ ∀ s', for_each cells (watch_output_cell w output) s = Done tt s' → (tick s ≤ tick s')%nat.
Proof.
  induction cells as [| c cells IH]; intros s; cbn [for_each].
  - split; [discriminate | intros s' [= <-]; lia].
  - unfold mbind, M_bind.
    destruct (watch_output_cell_ends w output c s) as [Hend Htick].
    destruct (watch_output_cell w output c s) as [[] s1 | e s1 | code s1 |];
      [| split; [discriminate | intros s' [=]] .. | congruence].
    destruct (IH s1) as [Hend' Htick'].
    split; [exact Hend' |].
    intros s' Hs'. specialize (Htick s1 eq_refl). specialize (Htick' s' Hs'). lia.
Qed.

Lemma stable_watch_loop w output start wait :
  stable (λ fuel, watch_loop w fuel output start wait).
Proof.
  intros fuel. induction fuel as [| fuel IH]; intros fuel' s Hle Hend;
    [exfalso; apply Hend; reflexivity |].
  destruct fuel' as [| fuel']; [lia |].
  cbn [watch_loop] in *. unfold mbind, M_bind, time_time, query_output_cells in *.
  destruct (time_at w (tick s) - start <? wait); [| reflexivity].
  destruct (for_each _ _ _) as [[] s1 | e s1 | code s1 |]; try reflexivity.
  apply IH; [lia | exact Hend].
Qed.

(** A watch ends once the clock stays at [wait_after_execute] or more past
    its start. *)
Lemma watch_loop_ends w output start wait n :
  (∀ m, (n ≤ m)%nat → start + wait ≤ time_at w m) →
  ∀ fuel s, (1 ≤ fuel)%nat → (n + 1 ≤ tick s + fuel)%nat →
    watch_loop w fuel output start wait s ≠ OutOfFuel.
Proof.
  intros Hclock fuel. induction fuel as [| fuel IH]; intros s Hfuel Hn; [lia |].
  cbn [watch_loop]. unfold mbind, M_bind, time_time, query_output_cells.
  destruct (time_at w (tick s) - start <? wait) eqn:Hnow; [| discriminate].
  apply Z.ltb_lt in Hnow.
  assert (tick s < n)%nat as Hlt.
  { destruct (decide (n ≤ tick s)%nat) as [Hge |]; [| lia].
    specialize (Hclock _ Hge). lia. }
  destruct (scan_ends w output (output_cells_at w (tick (next_tick s))) (next_tick (next_tick s)))
    as [Hend Htick].
  destruct (for_each _ _ _) as [[] s1 | e s1 | code s1 |]; try discriminate; [| congruence].
  specialize (Htick s1 eq_refl). simpl in Htick.
  apply IH; lia.
Qed.

Lemma stable_wait_for_input_cells w : stable (wait_for_input_cells w).
Proof.
  intros fuel. induction fuel as [| fuel IH]; intros fuel' s Hle Hend;
    [exfalso; apply Hend; reflexivity |].
  destruct fuel' as [| fuel']; [lia |].
  cbn [wait_for_input_cells] in *.
  unfold mbind, M_bind, query_input_cells, wait_for_timeout, modify in *.
  destruct (0 <? _)%nat; [reflexivity |].
  apply IH; [lia | exact Hend].
Qed.

(** The polling of lines 74-90 ends once the page keeps showing a visible
    input cell. *)
Lemma wait_for_input_cells_ends w n :
  (∀ m, (n ≤ m)%nat → filter (λ c, input_visible c = true) (input_cells_at w m) ≠ []) →
  ∀ fuel s, (1 ≤ fuel)%nat → (n + 1 ≤ tick s + fuel)%nat →
    wait_for_input_cells w fuel s ≠ OutOfFuel.
Proof.
  intros Hshow fuel. induction fuel as [| fuel IH]; intros s Hfuel Hn; [lia |].
  cbn [wait_for_input_cells].
  unfold mbind, M_bind, query_input_cells, wait_for_timeout, modify.
  destruct (0 <? length _)%nat eqn:Hlen; [discriminate |].
  apply Nat.ltb_ge in Hlen.
  assert (tick s < n)%nat as Hlt.
  { destruct (decide (n ≤ tick s)%nat) as [Hge |]; [| lia].
    specialize (Hshow _ Hge).
    destruct (filter _ (input_cells_at w (tick s))); [congruence | simpl in Hlen; lia]. }
  apply IH; simpl; lia.
Qed.

Ltac stable_tac :=
  repeat first
    [ apply stable_const
    | apply stable_watch_loop
    | apply stable_wait_for_input_cells
    | apply stable_for_each_from; intros ? ?
    | apply stable_bind; [| intros ?] ].

Lemma stable_run_input_cell w output wait i c :
  stable (λ fuel, run_input_cell w fuel output wait i c).
Proof.
  unfold run_input_cell, watch. destruct (bool_decide _); stable_tac.
Qed.

Lemma halts_run_input_cell w output wait i c s :
  clock_advances w → halts (λ fuel, run_input_cell w fuel output wait i c) s.
Proof.
  intros Hclock. unfold run_input_cell, watch.
  destruct (bool_decide _); [apply halts_const; discriminate |].
  apply halts_bind; [stable_tac | intros _; stable_tac | |].
  - apply halts_const.
    destruct (execute_input_cell_buffers w output i c s) as (s1 & ts & fn & H & _).
    rewrite H. discriminate.
  - intros _ [] s1 _.
    apply halts_bind; [stable_tac | intros start; stable_tac | |].
    + apply halts_const. discriminate.
    + intros _ start s2 _.
      destruct (Hclock (start + wait)) as [n Hn].
      exists (n + 1)%nat. apply (watch_loop_ends w output start wait n Hn); lia.
Qed.

Lemma stable_monitor_session w output wait :
  stable (λ fuel, monitor_session w fuel output wait).
Proof.
  unfold monitor_session. stable_tac. apply stable_run_input_cell.
Qed.

Lemma halts_monitor_session w output wait s :
  input_cells_appear w → clock_advances w →
  halts (λ fuel, monitor_session w fuel output wait) s.
Proof.
  intros [n Hshow] Hclock. unfold monitor_session.
  apply halts_bind;
    [stable_tac | intros _; stable_tac; apply stable_run_input_cell
    | apply halts_const; discriminate |].
  intros _ [] s1 _.
  apply halts_bind;
    [stable_tac | intros _; stable_tac; apply stable_run_input_cell
    | apply halts_const; discriminate |].
  intros _ [] s2 _.
  apply halts_bind;
    [stable_tac | intros cells; stable_tac; apply stable_run_input_cell | |].
  { exists (n + 1)%nat. apply (wait_for_input_cells_ends w n Hshow); lia. }
  intros _ cells s3 _.
  apply halts_bind;
    [stable_tac | intros _; stable_tac; apply stable_run_input_cell
    | apply halts_const; discriminate |].
  intros _ [] s4 _.
  apply (halts_for_each_from (λ fuel, run_input_cell w fuel output wait)).
  - intros i c. apply stable_run_input_cell.
  - intros i c s5. apply halts_run_input_cell, Hclock.
Qed.

Lemma stable_with_open_log {A} path (m : nat → M A) :
  stable m → stable (λ fuel, with_open_log path (m fuel)).
Proof.
  intros Hm fuel fuel' s Hle Hend. unfold with_open_log in *.
  rewrite (Hm fuel fuel' (open_log path s) Hle); [reflexivity |].
  intros Hout. rewrite Hout in Hend. congruence.
Qed.

Lemma halts_with_open_log {A} path (m : nat → M A) s :
  halts m (open_log path s) → halts (λ fuel, with_open_log path (m fuel)) s.
Proof.
  intros [fuel Hend]. exists fuel. unfold with_open_log.
  destruct (m fuel (open_log path s)); congruence.
Qed.

Lemma stable_monitor w output wait copy :
  stable (λ fuel, monitor w fuel output wait copy).
Proof.
  unfold monitor.
  apply stable_bind; [apply stable_const | intros o].
  apply stable_bind; [apply stable_const | intros ex].
  destruct ex; [apply stable_const |].
  apply stable_bind; [apply stable_const | intros _].
  apply stable_bind; [apply stable_const | intros _].
  apply stable_bind; [| intros _; apply stable_const].
  apply stable_with_open_log, stable_monitor_session.
Qed.

Lemma read_log_ends path s : read_log path s ≠ OutOfFuel.
Proof. unfold read_log. destruct (fs s !! path) as [[] |]; discriminate. Qed.

Lemma read_notebook_ends path s : read_notebook path s ≠ OutOfFuel.
Proof. unfold read_notebook. destruct (fs s !! path) as [[] |]; discriminate. Qed.

Lemma lift_ends {A} (r : result A) s : lift r s ≠ OutOfFuel.
Proof. destruct r; discriminate. Qed.

Lemma write_profiled_notebook_copy_ends output event_log_path copy_notebook s :
  write_profiled_notebook_copy output event_log_path copy_notebook s ≠ OutOfFuel.
Proof.
  unfold write_profiled_notebook_copy, mbind, M_bind.
  pose proof (read_log_ends event_log_path s) as H1.
  destruct (read_log event_log_path s) as [lines s1 | | |]; try congruence.
  pose proof (lift_ends (profiles lines) s1) as H2.
  destruct (lift (profiles lines) s1) as [results s2 | | |]; try congruence.
  pose proof (lift_ends (markdown_annotations results) s2) as H3.
  destruct (lift (markdown_annotations results) s2) as [annotations s3 | | |]; try congruence.
  pose proof (read_notebook_ends copy_notebook s3) as H4.
  destruct (read_notebook copy_notebook s3) as [cells s4 | | |]; try congruence.
  pose proof (lift_ends (weave annotations cells) s4) as H5.
  destruct (lift (weave annotations cells) s4) as [new_cells s5 | | |]; try congruence.
  discriminate.
Qed.

Lemma halts_monitor w output wait copy s :
  input_cells_appear w → clock_advances w →
  halts (λ fuel, monitor w fuel output wait copy) s.
Proof.
  intros Hshow Hclock. unfold monitor.
  apply halts_bind; [apply stable_const | | |].
  { intros o.
    apply stable_bind; [apply stable_const | intros ex].
    destruct ex; [apply stable_const |].
    apply stable_bind; [apply stable_const | intros _].
    apply stable_bind; [apply stable_const | intros _].
    apply stable_bind; [| intros _; apply stable_const].
    apply stable_with_open_log, stable_monitor_session. }
  { apply halts_const. destruct output; discriminate. }
  intros _ o s1 _.
  apply halts_bind; [apply stable_const | | apply halts_const; discriminate |].
  { intros ex. destruct ex; [apply stable_const |].
    apply stable_bind; [apply stable_const | intros _].
    apply stable_bind; [apply stable_const | intros _].
    apply stable_bind; [| intros _; apply stable_const].
    apply stable_with_open_log, stable_monitor_session. }
  intros _ ex s2 _. destruct ex; [apply halts_const; discriminate |].
  apply halts_bind; [apply stable_const | | |].
  { intros _.
    apply stable_bind; [apply stable_const | intros _].
    apply stable_bind; [| intros _; apply stable_const].
    apply stable_with_open_log, stable_monitor_session. }
  { apply halts_const. unfold makedirs. destruct (bool_decide _); discriminate. }
  intros _ [] s3 _.
  apply halts_bind; [apply stable_const | | apply halts_const; discriminate |].
  { intros _. apply stable_bind; [| intros _; apply stable_const].
    apply stable_with_open_log, stable_monitor_session. }
  intros _ [] s4 _.
  apply halts_bind.
  - apply stable_with_open_log, stable_monitor_session.
  - intros _. apply stable_const.
  - apply halts_with_open_log, halts_monitor_session; assumption.
  - intros _ [] s5 _. apply halts_const.
    destruct (given copy); [apply write_profiled_notebook_copy_ends | discriminate].
Qed.

Lemma write_profiled_notebook_copy_done output event_log_path copy_notebook s s' :
  write_profiled_notebook_copy output event_log_path copy_notebook s = Done tt s' →
  ∃ new_cells,
    fs s' = <[Py.path_join output
                (Py.replace ".ipynb" "-profiling.ipynb" (Py.basename copy_notebook))
              := Notebook new_cells]> (fs s).
Proof.
  unfold write_profiled_notebook_copy, mbind, M_bind, read_log, read_notebook, lift, raise,
    mret, M_ret, write_notebook, modify.
  destruct (fs s !! event_log_path) as [[] |]; try discriminate.
  destruct (profiles (log_disk s)) as [results |]; [| discriminate].
  destruct (markdown_annotations results) as [annotations |]; [| discriminate].
  destruct (fs s !! copy_notebook) as [[| | | cells] |]; try discriminate.
  destruct (weave annotations cells) as [new_cells |]; [| discriminate].
  intros [= <-].
  exists new_cells. reflexivity.
Qed.

(** *** Runs that end normally *)

Lemma no_raise_bind {A B} (m : M A) (f : A → M B) :
  no_raise m → (∀ a, no_raise (f a)) → no_raise (m ≫= f).
Proof.
  intros Hm Hf s e s'. unfold mbind, M_bind.
  destruct (m s) as [a s1 | e1 s1 | c s1 |] eqn:Hms; try discriminate.
  - apply Hf.
  - exfalso. exact (Hm s e1 s1 Hms).
Qed.

Lemma no_raise_ret {A} (a : A) : no_raise (mret a : M A).
Proof. intros s e s'. discriminate. Qed.

Lemma no_raise_modify (f : state → state) : no_raise (modify f).
Proof. intros s e s'. discriminate. Qed.

Lemma no_raise_for_each {A} (l : list A) (body : A → M unit) :
  (∀ x, x ∈ l → no_raise (body x)) → no_raise (for_each l body).
Proof.
  induction l as [| x l IH]; intros Hb; cbn [for_each].
  - apply no_raise_ret.
  - apply no_raise_bind; [apply Hb, list_elem_of_here | intros _].
    apply IH. intros y Hy. apply Hb, list_elem_of_further, Hy.
Qed.

Lemma no_raise_for_each_from {A} (l : list A) (body : nat → A → M unit) i :
  (∀ i x, no_raise (body i x)) → no_raise (for_each_from i l body).
Proof.
  intros Hb. revert i. induction l as [| x l IH]; intros i; cbn [for_each_from].
  - apply no_raise_ret.
  - apply no_raise_bind; [apply Hb | intros _; apply IH].
Qed.

(** The scan of an output cell of the page raises nothing when the styles of
    the page can be read. *)
Lemma no_raise_watch_output_cell w output n c :
  styles_parse w → c ∈ output_cells_at w n → no_raise (watch_output_cell w output c).
Proof.
  intros Hstyles Hc s e s'. unfold watch_output_cell.
  destruct (output_visible c) eqn:Hv; cbn [negb]; [| discriminate].
  destruct (div c) as [d |] eqn:Hd; [| discriminate].
  destruct (style d) as [st |] eqn:Hs; [| discriminate].
  destruct (Py.contains "border-color: rgb(" st) eqn:Hcont; cbn [negb]; [| discriminate].
  destruct (Hstyles n c d st Hc Hv Hd Hs Hcont) as [[[r g] b] Hp].
  rewrite Hp. unfold or_raise, lift, mbind, M_bind, mret, M_ret.
  destruct (bool_decide _); [discriminate |].
  rewrite record_if_changed_eq. destruct (decide _); discriminate.
Qed.

Lemma no_raise_watch_loop w fuel output start wait :
  styles_parse w → no_raise (watch_loop w fuel output start wait).
Proof.
  intros Hstyles. induction fuel as [| fuel IH]; cbn [watch_loop]; [intros s e s'; discriminate |].
  intros s e s'. unfold mbind, M_bind, time_time, query_output_cells.
  destruct (time_at w (tick s) - start <? wait); [| discriminate].
  pose proof (no_raise_for_each (output_cells_at w (tick (next_tick s)))
                (watch_output_cell w output)
                (λ c Hc, no_raise_watch_output_cell w output _ c Hstyles Hc)
                (next_tick (next_tick s))) as Hscan.
  destruct (for_each _ _ _) as [[] s1 | e1 s1 | code s1 |]; try discriminate.
  - apply IH.
  - exfalso. exact (Hscan e1 s1 eq_refl).
Qed.

Lemma no_raise_run_input_cell w fuel output wait i c :
  styles_parse w → no_raise (run_input_cell w fuel output wait i c).
Proof.
  intros Hstyles. unfold run_input_cell. destruct (bool_decide _); [apply no_raise_ret |].
  apply no_raise_bind.
  - intros s e s'.
    destruct (execute_input_cell_buffers w output i c s) as (s1 & ts & fn & H & _).
    rewrite H. discriminate.
  - intros _. unfold watch.
    apply no_raise_bind; [intros s e s'; discriminate | intros start].
    apply no_raise_watch_loop, Hstyles.
Qed.

Lemma no_raise_wait_for_input_cells w fuel : no_raise (wait_for_input_cells w fuel).
Proof.
  induction fuel as [| fuel IH]; cbn [wait_for_input_cells]; [intros s e s'; discriminate |].
  apply no_raise_bind; [intros s e s'; discriminate | intros cells].
  destruct (0 <? _)%nat; [apply no_raise_ret |].
  apply no_raise_bind; [apply no_raise_modify | intros _; exact IH].
Qed.

Lemma no_raise_monitor_session w fuel output wait :
  styles_parse w → no_raise (monitor_session w fuel output wait).
Proof.
  intros Hstyles. unfold monitor_session.
  apply no_raise_bind; [apply no_raise_modify | intros _].
  apply no_raise_bind; [apply no_raise_modify | intros _].
  apply no_raise_bind; [apply no_raise_wait_for_input_cells | intros cells].
  apply no_raise_bind; [apply no_raise_modify | intros _].
  apply no_raise_for_each_from. intros i c. apply no_raise_run_input_cell, Hstyles.
Qed.

(** On a page that comes to show an input cell and whose styles can be read,
    with a clock that advances, the session ends normally, fuel enough
    given. *)
Lemma monitor_session_done w output wait s :
  input_cells_appear w → clock_advances w → styles_parse w →
  ∃ fuel s2, ∀ fuel', (fuel ≤ fuel')%nat → monitor_session w fuel' output wait s = Done tt s2.
Proof.
  intros Hshow Hclock Hstyles.
  destruct (halts_monitor_session w output wait s Hshow Hclock) as [fuel Hend].
  destruct (monitor_session w fuel output wait s) as [[] s2 | e s2 | code s2 |] eqn:Hrun.
  - exists fuel, s2. intros fuel' Hle.
    rewrite (stable_monitor_session w output wait fuel fuel' s Hle) by congruence.
    exact Hrun.
  - exfalso. exact (no_raise_monitor_session w fuel output wait Hstyles s e s2 Hrun).
  - exfalso. exact (no_exit_monitor_session w fuel output wait s code s2 Hrun).
  - congruence.
Qed.

(** Lines 51-63 and 191-192 around the session: in a fresh directory that
    can be made, a session that ends normally is followed by the
    post-processor when a notebook copy is asked for, and by nothing
    otherwise. *)
Lemma monitor_after_session w fuel output wait copy s s2 :
  fs s !! output_directory w output s = None →
  output_directory w output s ≠ "" →
  with_open_log (Py.path_join (output_directory w output s) "event_log.csv")
    (monitor_session w fuel (output_directory w output s) wait) (session_start w output s)
  = Done tt s2 →
  monitor w fuel output wait copy s
  = match given copy with
    | Some path =>
        write_profiled_notebook_copy (output_directory w output s)
          (Py.path_join (output_directory w output s) "event_log.csv") path s2
    | None => Done tt s2
    end.
Proof.
  intros Hfresh Hname Hsession.
  assert (Hm : monitor w fuel output wait copy s
            = (path_exists (output_directory w output s) ≫= λ ex : bool,
               if ex then sys_exit 1
               else makedirs (output_directory w output s) ≫= λ _,
                    modify (set_last_screenshot (λ _, ∅)) ≫= λ _,
                    with_open_log (Py.path_join (output_directory w output s) "event_log.csv")
                      (monitor_session w fuel (output_directory w output s) wait) ≫= λ _,
                    match given copy with
                    | Some p =>
                        write_profiled_notebook_copy (output_directory w output s)
                          (Py.path_join (output_directory w output s) "event_log.csv") p
                    | None => mret tt
                    end)
                (match output with Some _ => s | None => next_tick s end)).
  { destruct output as [o |]; reflexivity. }
  rewrite Hm. clear Hm.
  set (s1 := match output with Some _ => s | None => next_tick s end) in *.
  assert (Hfs1 : fs s1 = fs s) by (unfold s1; destruct output; reflexivity).
  unfold mbind at 1, M_bind at 1, path_exists, gets.
  rewrite bool_decide_eq_false_2
    by (rewrite Hfs1, Hfresh; intros [x Hx]; discriminate).
  unfold mbind at 1, M_bind at 1, makedirs.
  rewrite (bool_decide_eq_false_2 _ Hname).
  unfold mbind, M_bind, modify.
  change (set_last_screenshot (λ _, ∅)
            (set_fs <[output_directory w output s := Directory]> s1))
    with (session_start w output s).
  rewrite Hsession. destruct (given copy); reflexivity.
Qed.

Lemma write_profiled_notebook_copy_outcome output event_log_path copy_notebook s :
  (∃ new_cells,
     write_profiled_notebook_copy output event_log_path copy_notebook s
     = Done tt (set_fs <[Py.path_join output
                           (Py.replace ".ipynb" "-profiling.ipynb"
                              (Py.basename copy_notebook))
                         := Notebook new_cells]> s))
  ∨ (∃ e, write_profiled_notebook_copy output event_log_path copy_notebook s = Raised e s).
Proof.
  unfold write_profiled_notebook_copy, mbind, M_bind, read_log, read_notebook, lift, raise,
    mret, M_ret, write_notebook, modify.
  destruct (fs s !! event_log_path) as [[] |]; try (right; eexists; reflexivity).
  destruct (profiles (log_disk s)) as [results |]; [| right; eexists; reflexivity].
  destruct (markdown_annotations results) as [annotations |]; [| right; eexists; reflexivity].
  destruct (fs s !! copy_notebook) as [[| | | cells] |]; try (right; eexists; reflexivity).
  destruct (weave annotations cells) as [new_cells |]; [| right; eexists; reflexivity].
  left. exists new_cells. reflexivity.
Qed.

(** C8, as the code has it.  The polling loop of lines 74-90 stops at the
    first poll that finds a visible input cell, and a watch of lines 127-187
    stops at the first reading of the clock that is [wait_after_execute] or
    more past its start.  So on a page that comes to show an input cell, with
    a clock that advances, the run ends by itself, fuel enough given.  When
    moreover the styles of the page can be read and the output directory is
    new and can be made, the session ends normally, the log is closed, and
    the run goes on as lines 191-192 say: with a notebook copy asked for it
    ends as the post-processor does on the state the session left, that is,
    normally with the annotated notebook written, or by the exception of the
    post-processor with nothing written; with none asked for it ends
    normally there.  And a run that ends normally with a notebook copy asked
    for has gone through the post-processor, which wrote the annotated
    copy. *)
Theorem monitor_run_ends_by_itself w output wait_after_execute copy_notebook s :
  (∀ fuel s0,
     filter (λ c, input_visible c = true) (input_cells_at w (tick s0)) ≠ [] →
     wait_for_input_cells w (S fuel) s0
     = Done (filter (λ c, input_visible c = true) (input_cells_at w (tick s0))) (next_tick s0))
  ∧ (∀ fuel o start s0,
       wait_after_execute ≤ time_at w (tick s0) - start →
       watch_loop w (S fuel) o start wait_after_execute s0 = Done tt (next_tick s0))
  ∧ (input_cells_appear w → clock_advances w →
       ∃ fuel,
         monitor w fuel output wait_after_execute copy_notebook s ≠ OutOfFuel
         ∧ ∀ fuel', (fuel ≤ fuel')%nat →
             monitor w fuel' output wait_after_execute copy_notebook s
             = monitor w fuel output wait_after_execute copy_notebook s)
  ∧ (input_cells_appear w → clock_advances w → styles_parse w →
     fs s !! output_directory w output s = None →
     output_directory w output s ≠ "" →
       ∃ fuel s2,
         (∀ fuel', (fuel ≤ fuel')%nat →
            with_open_log (Py.path_join (output_directory w output s) "event_log.csv")
              (monitor_session w fuel' (output_directory w output s) wait_after_execute)
              (session_start w output s)
            = Done tt s2)
         ∧ (∀ fuel', (fuel ≤ fuel')%nat →
              monitor w fuel' output wait_after_execute copy_notebook s
              = match given copy_notebook with
                | Some path =>
                    write_profiled_notebook_copy (output_directory w output s)
                      (Py.path_join (output_directory w output s) "event_log.csv") path s2
                | None => Done tt s2
                end)
         ∧ (∀ path, given copy_notebook = Some path →
              (∃ new_cells, ∀ fuel', (fuel ≤ fuel')%nat →
                 monitor w fuel' output wait_after_execute copy_notebook s
                 = Done tt (set_fs <[Py.path_join (output_directory w output s)
                                       (Py.replace ".ipynb" "-profiling.ipynb"
                                          (Py.basename path))
                                     := Notebook new_cells]> s2))
              ∨ (∃ e, ∀ fuel', (fuel ≤ fuel')%nat →
                   monitor w fuel' output wait_after_execute copy_notebook s
                   = Raised e s2)))
  ∧ (∀ fuel path s',
       given copy_notebook = Some path →
       monitor w fuel output wait_after_execute copy_notebook s = Done tt s' →
       ∃ s2 new_cells,
         write_profiled_notebook_copy (output_directory w output s)
           (Py.path_join (output_directory w output s) "event_log.csv") path s2 = Done tt s'
         ∧ fs s' !! Py.path_join (output_directory w output s)
                      (Py.replace ".ipynb" "-profiling.ipynb" (Py.basename path))
           = Some (Notebook new_cells)).
Proof.
  split; [| split; [| split; [| split]]].
  - intros fuel s0 Hcells. cbn [wait_for_input_cells].
    unfold mbind, M_bind, query_input_cells.
    destruct (filter _ (input_cells_at w (tick s0))) as [| c cells] eqn:Hf; [congruence |].
    reflexivity.
  - intros fuel o start s0 Hnow. cbn [watch_loop]. unfold mbind, M_bind, time_time.
    replace (time_at w (tick s0) - start <? wait_after_execute) with false
      by (symmetry; apply Z.ltb_ge; exact Hnow).
    reflexivity.
  - intros Hshow Hclock.
    destruct (halts_monitor w output wait_after_execute copy_notebook s Hshow Hclock)
      as [fuel Hend].
    exists fuel. split; [exact Hend |].
    intros fuel' Hle. exact (stable_monitor w output wait_after_execute copy_notebook
                               fuel fuel' s Hle Hend).
  - intros Hshow Hclock Hstyles Hfresh Hname.
    destruct (monitor_session_done w (output_directory w output s) wait_after_execute
                (open_log (Py.path_join (output_directory w output s) "event_log.csv")
                   (session_start w output s))
                Hshow Hclock Hstyles) as (fuel & s1 & Hsession).
    assert (Hlog : ∀ fuel', (fuel ≤ fuel')%nat →
              with_open_log (Py.path_join (output_directory w output s) "event_log.csv")
                (monitor_session w fuel' (output_directory w output s) wait_after_execute)
                (session_start w output s)
              = Done tt (flush s1)).
    { intros fuel' Hle. unfold with_open_log. rewrite (Hsession fuel' Hle). reflexivity. }
    assert (Hrun : ∀ fuel', (fuel ≤ fuel')%nat →
              monitor w fuel' output wait_after_execute copy_notebook s
              = match given copy_notebook with
                | Some path =>
                    write_profiled_notebook_copy (output_directory w output s)
                      (Py.path_join (output_directory w output s) "event_log.csv") path
                      (flush s1)
                | None => Done tt (flush s1)
                end).
    { intros fuel' Hle.
      exact (monitor_after_session w fuel' output wait_after_execute copy_notebook s
               (flush s1) Hfresh Hname (Hlog fuel' Hle)). }
    exists fuel, (flush s1). split; [exact Hlog |]. split; [exact Hrun |].
    intros path Hcopy.
    destruct (write_profiled_notebook_copy_outcome (output_directory w output s)
                (Py.path_join (output_directory w output s) "event_log.csv") path (flush s1))
      as [[new_cells Hdone] | [e Hraised]].
    + left. exists new_cells. intros fuel' Hle.
      rewrite (Hrun fuel' Hle), Hcopy. exact Hdone.
    + right. exists e. intros fuel' Hle.
      rewrite (Hrun fuel' Hle), Hcopy. exact Hraised.
  - intros fuel path s' Hcopy Hrun.
    assert (∃ s1, monitor w fuel output wait_after_execute copy_notebook s
              = (path_exists (output_directory w output s) ≫= λ ex : bool,
                 if ex then sys_exit 1
                 else makedirs (output_directory w output s) ≫= λ _,
                      modify (set_last_screenshot (λ _, ∅)) ≫= λ _,
                      with_open_log (Py.path_join (output_directory w output s) "event_log.csv")
                        (monitor_session w fuel (output_directory w output s)
                           wait_after_execute) ≫= λ _,
                      match given copy_notebook with
                      | Some p =>
                          write_profiled_notebook_copy (output_directory w output s)
                            (Py.path_join (output_directory w output s) "event_log.csv") p
                      | None => mret tt
                      end) s1) as [s1 Hm].
    { destruct output as [o |]; [exists s | exists (next_tick s)]; reflexivity. }
    rewrite Hm in Hrun. clear Hm. rewrite Hcopy in Hrun.
    unfold mbind, M_bind, path_exists, gets, sys_exit in Hrun.
    destruct (bool_decide _); [discriminate |].
    destruct (makedirs _ s1) as [[] s2 | | |]; try discriminate.
    cbn [modify] in Hrun.
    destruct (with_open_log _ _ _) as [[] s3 | | |]; try discriminate.
    exists s3.
    destruct (write_profiled_notebook_copy_done _ _ _ _ _ Hrun) as [new_cells Hfs].
    exists new_cells. split; [exact Hrun |].
    rewrite Hfs. apply lookup_insert_eq.
Qed.

Lemma sample_input_cells_appear : input_cells_appear sample_world.
Proof.
  exists 2%nat. intros m Hm. simpl.
  replace (m <? 2)%nat with false by (symmetry; apply Nat.ltb_ge; exact Hm).
  discriminate.
Defined.

Lemma sample_clock_advances : clock_advances sample_world.
Proof.
  intros t. exists (Z.to_nat t). intros m Hm. simpl. lia.
Defined.

Lemma sample_styles_parse : styles_parse sample_world.
Proof.
  intros n c d st Hc _ Hd Hs _. simpl in Hc.
  apply list_elem_of_singleton in Hc. subst c.
  simpl in Hd. injection Hd as <-. simpl in Hs. injection Hs as <-.
  exists (143, 56, 7). vm_compute. reflexivity.
Defined.

Lemma monitor_run_ends_by_itself_witness :
  ∃ fuel s2, ∀ fuel', (fuel ≤ fuel')%nat →
    monitor sample_world fuel' (Some "out") 3 (Some "demo.ipynb") initial_state
    = write_profiled_notebook_copy "out" "out/event_log.csv" "demo.ipynb" s2.
Proof.
  destruct (proj1 (proj2 (proj2 (proj2 (monitor_run_ends_by_itself sample_world (Some "out") 3
                                          (Some "demo.ipynb") initial_state))))
              sample_input_cells_appear sample_clock_advances sample_styles_parse
              eq_refl ltac:(discriminate))
    as (fuel & s2 & _ & Hrun & _).
  exists fuel, s2. exact Hrun.
Defined.

(** C8, as stated, fails.  On the sample page, which shows its input cells at
    the second poll, with a clock that advances, the run ends by itself: the
    polling loop is left, both non-empty cells are executed and watched, the
    log is closed and the post-processor writes the annotated notebook.  So it
    is not so that a run never ends unless it is killed. *)
Lemma run_ends_without_being_killed_counterexample :
  (∃ s', monitor sample_world 3 (Some "out") 3 (Some "demo.ipynb") initial_state = Done tt s'
     ∧ log_disk s'
       = [ header_line;
           event_line (LogRow "2024-05-17T10:00:03.250000" "execute-input" 0
                         "out/input-000-2024-05-17T10-00-03.250000.png");
           event_line (LogRow "2024-05-17T10:00:07.250000" "output-changed" 7
                         "out/output-007-2024-05-17T10-00-07.250000.png");
           event_line (LogRow "2024-05-17T10:00:09.250000" "execute-input" 2
                         "out/input-002-2024-05-17T10-00-09.250000.png") ]
     ∧ fs s' !! "out/demo-profiling.ipynb"
       = Some (Notebook
                 [ Cell "code" "x = 1";
                   new_markdown_cell
                     ("![output screenshot](output-007-2024-05-17T10-00-07.250000.png)"
                      +:+ Py.nl +:+ Py.nl +:+ "#### Profiling result for cell 0: " +:+ Py.nl
                      +:+ " * 4.00 seconds elapsed" +:+ Py.nl
                      +:+ " * 1 output updates" +:+ Py.nl);
                   Cell "markdown" "# Title";
                   Cell "code" "";
                   Cell "code" "print(x)";
                   new_markdown_cell (no_output_annotation 2) ]))
  ∧ ¬ (∀ w fuel output wait_after_execute copy_notebook s,
         final_state (monitor w fuel output wait_after_execute copy_notebook s) = None).
Proof.
  assert (Hrun : ∃ s', monitor sample_world 3 (Some "out") 3 (Some "demo.ipynb") initial_state
                       = Done tt s'
            ∧ log_disk s'
              = [ header_line;
                  event_line (LogRow "2024-05-17T10:00:03.250000" "execute-input" 0
                                "out/input-000-2024-05-17T10-00-03.250000.png");
                  event_line (LogRow "2024-05-17T10:00:07.250000" "output-changed" 7
                                "out/output-007-2024-05-17T10-00-07.250000.png");
                  event_line (LogRow "2024-05-17T10:00:09.250000" "execute-input" 2
                                "out/input-002-2024-05-17T10-00-09.250000.png") ]
            ∧ fs s' !! "out/demo-profiling.ipynb"
              = Some (Notebook
                        [ Cell "code" "x = 1";
                          new_markdown_cell
                            ("![output screenshot](output-007-2024-05-17T10-00-07.250000.png)"
                             +:+ Py.nl +:+ Py.nl +:+ "#### Profiling result for cell 0: "
                             +:+ Py.nl +:+ " * 4.00 seconds elapsed" +:+ Py.nl
                             +:+ " * 1 output updates" +:+ Py.nl);
                          Cell "markdown" "# Title";
                          Cell "code" "";
                          Cell "code" "print(x)";
                          new_markdown_cell (no_output_annotation 2) ])).
  { eexists. split; [vm_compute; reflexivity |]. split; vm_compute; reflexivity. }
  split; [exact Hrun |].
  intros Hnever. destruct Hrun as (s' & Hrun & _).
  specialize (Hnever sample_world 3%nat (Some "out") 3 (Some "demo.ipynb") initial_state).
  rewrite Hrun in Hnever. discriminate.
Qed.

(** * Further properties of the code *)

(** ** File names *)

Lemma prefix_empty s : String.prefix "" s = true.
Proof. destruct s; reflexivity. Qed.

Lemma iso_to_path_cons c t :
  iso_to_path (String c t) = String (path_char c) (iso_to_path t).
Proof.
  unfold iso_to_path, Py.replace, path_char. cbn [Py.replace_from String.prefix].
  destruct (ascii_dec ":" c) as [<- | Hne].
  - rewrite prefix_empty. reflexivity.
  - rewrite decide_False by congruence. reflexivity.
Qed.

(** X1.  [iso_to_path] turns every colon of a timestamp into a hyphen and
    touches nothing else: the result has the length of the timestamp, holds
    at each place the character of the timestamp or a hyphen for a colon, has
    no colon left, and is the timestamp itself when that has no colon. *)
Theorem iso_to_path_replaces_each_colon (t : string) :
  String.length (iso_to_path t) = String.length t
  ∧ (∀ i, String.get i (iso_to_path t) = path_char <$> String.get i t)
  ∧ occurs ":" (iso_to_path t) = false
  ∧ (occurs ":" t = false → iso_to_path t = t).
Proof.
  induction t as [| c t (IHlen & IHget & IHno & IHid)].
  - repeat split.
  - rewrite iso_to_path_cons. cbn [String.length occurs]. repeat split.
    + rewrite IHlen. reflexivity.
    + intros [| i]; [reflexivity | exact (IHget i)].
    + rewrite IHno, orb_false_r. apply bool_decide_eq_false_2.
      unfold path_char. destruct (decide (c = ":"%char)); [discriminate | assumption].
    + intros Hc. apply orb_false_iff in Hc as [Hc Ht].
      apply bool_decide_eq_false_1 in Hc.
      rewrite (IHid Ht). unfold path_char. rewrite decide_False by exact Hc. reflexivity.
Qed.

Lemma iso_to_path_replaces_each_colon_witness :
  iso_to_path "2024-05-17T10-00-03.250000" = "2024-05-17T10-00-03.250000".
Proof.
  exact (proj2 (proj2 (proj2 (iso_to_path_replaces_each_colon "2024-05-17T10-00-03.250000")))
           eq_refl).
Defined.

(** ** Reasoning about runs *)

Lemma hoare_consequence {A} (P P' Q Q' : state → Prop) (m : M A) :
  hoare P m Q → (∀ s, P' s → P s) → (∀ s, Q s → Q' s) → hoare P' m Q'.
Proof. intros Hm HP HQ s s' Hs Hfin. exact (HQ _ (Hm s s' (HP _ Hs) Hfin)). Qed.

Lemma hoare_ret {A} (P : state → Prop) (a : A) : hoare P (mret a) P.
Proof. intros s s' Hs [= <-]. exact Hs. Qed.

Lemma hoare_raise {A} (P : state → Prop) (e : exn) : hoare P (raise e : M A) P.
Proof. intros s s' Hs [= <-]. exact Hs. Qed.

Lemma hoare_lift {A} (P : state → Prop) (r : result A) : hoare P (lift r) P.
Proof. destruct r; [apply hoare_ret | apply hoare_raise]. Qed.

Lemma hoare_out_of_fuel {A} (P Q : state → Prop) : hoare P (out_of_fuel : M A) Q.
Proof. intros s s' _ [=]. Qed.

Lemma hoare_modify (P Q : state → Prop) (f : state → state) :
  (∀ s, P s → Q (f s)) → hoare P (modify f) Q.
Proof. intros Hf s s' Hs [= <-]. exact (Hf s Hs). Qed.

Lemma hoare_gets {A} (P : state → Prop) (f : state → A) : hoare P (gets f) P.
Proof. intros s s' Hs [= <-]. exact Hs. Qed.

(** An exception of [m] leaves a state where [Q] holds, which must then be
    good enough for [R]. *)
Lemma hoare_bind {A B} (P Q R : state → Prop) (m : M A) (f : A → M B) :
  hoare P m Q → (∀ a, hoare Q (f a) R) → (∀ s, Q s → R s) → hoare P (m ≫= f) R.
Proof.
  intros Hm Hf HQR s s' Hs. unfold mbind, M_bind.
  destruct (m s) as [a s1 | e s1 | c s1 |] eqn:Hms; cbn [final_state].
  - apply (Hf a s1). apply (Hm s s1 Hs). rewrite Hms. reflexivity.
  - intros [= <-]. apply HQR, (Hm s s1 Hs). rewrite Hms. reflexivity.
  - intros [= <-]. apply HQR, (Hm s s1 Hs). rewrite Hms. reflexivity.
  - discriminate.
Qed.

Lemma invariant_bind {A B} (I : state → Prop) (m : M A) (f : A → M B) :
  hoare I m I → (∀ a, hoare I (f a) I) → hoare I (m ≫= f) I.
Proof. intros Hm Hf. apply (hoare_bind I I I); auto. Qed.

Lemma invariant_for_each {A} (I : state → Prop) (l : list A) (body : A → M unit) :
  (∀ x, hoare I (body x) I) → hoare I (for_each l body) I.
Proof.
  intros Hb. induction l as [| x l IH]; cbn [for_each].
  - apply hoare_ret.
  - apply invariant_bind; [apply Hb | intros _; exact IH].
Qed.

Lemma invariant_for_each_from {A} (I : state → Prop) (l : list A) (body : nat → A → M unit) :
  (∀ i x, hoare I (body i x) I) → ∀ i, hoare I (for_each_from i l body) I.
Proof.
  intros Hb. induction l as [| x l IH]; intros i; cbn [for_each_from].
  - apply hoare_ret.
  - apply invariant_bind; [apply Hb | intros _; apply IH].
Qed.

Lemma execute_input_cell_eq w output input_index c s :
  execute_input_cell w output input_index c s
  = Done tt (after_execute output input_index c (isotime_at w (tick s)) s).
Proof. reflexivity. Qed.

(** What holds through the scan of one output cell holds once it is over,
    when a consultation of the clock and the recording of a change keep
    it. *)
Lemma invariant_watch_output_cell w output (I : state → Prop) c :
  (∀ s b shot, I s → I (after_change output b shot (isotime_at w (tick s)) s)) →
  hoare I (watch_output_cell w output c) I.
Proof.
  intros Hchange s s' Hs.
  destruct (watch_output_cell_cases w output c s)
    as [H | [H | (d & st & b & _ & _ & _ & _ & _ & H)]]; rewrite H.
  - intros [= <-]. exact Hs.
  - intros [= <-]. exact Hs.
  - rewrite record_if_changed_eq. destruct (decide _); intros [= <-]; auto.
Qed.

Lemma invariant_watch w fuel output wait (I : state → Prop) :
  (∀ s, I s → I (next_tick s)) →
  (∀ s b shot, I s → I (after_change output b shot (isotime_at w (tick s)) s)) →
  hoare I (watch w fuel output wait) I.
Proof.
  intros Htick Hchange. unfold watch.
  assert (Hread : ∀ A (f : nat → A), hoare I (λ s, Done (f (tick s)) (next_tick s)) I).
  { intros A f s s' Hs [= <-]. auto. }
  apply invariant_bind; [apply (Hread Z (time_at w)) | intros start].
  induction fuel as [| fuel IH]; cbn [watch_loop]; [apply hoare_out_of_fuel |].
  apply invariant_bind; [apply (Hread Z (time_at w)) | intros now].
  destruct (now - start <? wait); [| apply hoare_ret].
  apply invariant_bind; [apply (Hread _ (output_cells_at w)) | intros cells].
  apply invariant_bind; [| intros _; exact IH].
  apply invariant_for_each. intros c. apply invariant_watch_output_cell, Hchange.
Qed.

(** The loop over the input cells keeps [I] when a consultation keeps it,
    the execution of a cell leads from [I] to [J], a stronger property that
    the watch of the cell keeps. *)
Lemma invariant_input_cells w fuel output wait (I J : state → Prop) cells :
  (∀ s, J s → I s) →
  (∀ s, J s → J (next_tick s)) →
  (∀ s b shot, J s → J (after_change output b shot (isotime_at w (tick s)) s)) →
  (∀ s i c, I s → J (after_execute output i c (isotime_at w (tick s)) s)) →
  ∀ i, hoare I (for_each_from i cells (run_input_cell w fuel output wait)) I.
Proof.
  intros HJI Htick Hchange Hexec.
  apply invariant_for_each_from. intros i c. unfold run_input_cell.
  destruct (bool_decide _); [apply hoare_ret |].
  apply (hoare_bind I J I).
  - intros s s' Hs. rewrite execute_input_cell_eq. intros [= <-]. apply Hexec, Hs.
  - intros _. apply (hoare_consequence J J J I); [| auto | exact HJI].
    apply invariant_watch; assumption.
  - exact HJI.
Qed.

Lemma invariant_wait_for_input_cells w fuel (I : state → Prop) :
  (∀ s, I s → I (next_tick s)) → hoare I (wait_for_input_cells w fuel) I.
Proof.
  intros Htick. induction fuel as [| fuel IH]; cbn [wait_for_input_cells];
    [apply hoare_out_of_fuel |].
  apply invariant_bind; [intros s s' Hs [= <-]; auto | intros cells].
  destruct (0 <? _)%nat; [apply hoare_ret |].
  apply invariant_bind; [apply hoare_modify, Htick | intros _; exact IH].
Qed.

(** What holds of the empty log once its header is written and flushed, and
    is kept by the steps of the session, holds when the session is over. *)
Lemma hoare_monitor_session w fuel output wait (P I J : state → Prop) :
  (∀ s, P s → I (flush (write_line header_line s))) →
  (∀ s, J s → I s) →
  (∀ s, I s → I (next_tick s)) →
  (∀ s, J s → J (next_tick s)) →
  (∀ s, I s → I (set_last_screenshot (λ _, ∅) s)) →
  (∀ s b shot, J s → J (after_change output b shot (isotime_at w (tick s)) s)) →
  (∀ s i c, I s → J (after_execute output i c (isotime_at w (tick s)) s)) →
  hoare P (monitor_session w fuel output wait) I.
Proof.
  intros Hstart HJI HtickI HtickJ Hreset Hchange Hexec s s' Hs.
  unfold monitor_session, log_write, log_flush.
  change ((modify (write_line header_line) ≫= λ _, modify flush ≫= ?k) s)
    with (k tt (flush (write_line header_line s))).
  apply (hoare_bind I I I (wait_for_input_cells w fuel)); [| | auto | auto].
  - apply invariant_wait_for_input_cells, HtickI.
  - intros cells. apply invariant_bind; [apply hoare_modify, Hreset | intros _].
    apply (invariant_input_cells w fuel output wait I J); assumption.
Qed.

Lemma with_open_log_final {A} path (body : M A) s s' :
  final_state (with_open_log path body s) = Some s' →
  ∃ s1, final_state (body (open_log path s)) = Some s1 ∧ s' = flush s1.
Proof.
  unfold with_open_log.
  destruct (body (open_log path s)) as [a s1 | e s1 | c s1 |]; cbn [final_state];
    [intros [= <-]; eauto .. | discriminate].
Qed.

(** ** The log of a session *)

(** Once written, a line of the log stays: the execution and the watch of
    an input cell only add lines after those written before. *)
Lemma run_input_cell_appends w fuel output wait l i c :
  hoare (λ s, l `prefix_of` log_written s)
        (run_input_cell w fuel output wait i c)
        (λ s, l `prefix_of` log_written s).
Proof.
  unfold run_input_cell. destruct (bool_decide _); [apply hoare_ret |].
  apply invariant_bind.
  - intros s s' Hs. rewrite execute_input_cell_eq. intros [= <-].
    unfold log_written in *. cbn [after_execute log_disk log_buffer].
    rewrite app_assoc. apply prefix_app_r, Hs.
  - intros _. apply invariant_watch.
    + intros s Hs. exact Hs.
    + intros s b shot Hs. unfold log_written in *.
      cbn [after_change log_disk log_buffer].
      rewrite app_nil_r, app_assoc. apply prefix_app_r, Hs.
Qed.

(** X2.  However the session ends, by itself or by an exception, the close
    of the log puts on disk all that the session had written by then,
    flushed or still in the buffer of the handle, and leaves the buffer
    empty; the log on disk starts with the header and holds nothing but
    records after it.  No step of the session takes a line back: what is
    written before the execution and watch of an input cell is the beginning
    of what is written after it. *)
Theorem closed_log_is_header_and_records w fuel output wait_after_execute path s s' :
  final_state (with_open_log path (monitor_session w fuel output wait_after_execute) s)
    = Some s' →
  (∃ s1, final_state (monitor_session w fuel output wait_after_execute (open_log path s))
           = Some s1
         ∧ log_disk s' = log_disk s1 ++ log_buffer s1)
  ∧ log_buffer s' = []
  ∧ header_then_records (log_disk s')
  ∧ (∀ i c s0 s2,
       final_state (run_input_cell w fuel output wait_after_execute i c s0) = Some s2 →
       log_written s0 `prefix_of` log_written s2).
Proof.
  intros Hfin. apply with_open_log_final in Hfin as (s1 & Hfin & ->).
  assert (Hshape : header_then_records (log_written s1)).
  { revert Hfin.
    apply (hoare_monitor_session w fuel output wait_after_execute
             (λ s, log_written s = []) (λ s, header_then_records (log_written s))
             (λ s, header_then_records (log_written s))); try (intros; assumption).
    - intros s0 Hs0. unfold log_written in *. cbn [flush write_line log_disk log_buffer].
      apply app_eq_nil in Hs0 as [-> ->]. exists []. reflexivity.
    - intros s0 b shot [rows Hrows]. unfold log_written in *.
      cbn [after_change log_disk log_buffer]. rewrite app_nil_r, app_assoc, Hrows.
      eexists (rows ++ [_]). rewrite fmap_app. reflexivity.
    - intros s0 i c [rows Hrows]. unfold log_written in *.
      cbn [after_execute log_disk log_buffer]. rewrite app_assoc, Hrows.
      eexists (rows ++ [_]). rewrite fmap_app. reflexivity.
    - reflexivity. }
  split; [| split; [| split]].
  - exists s1. split; [exact Hfin | reflexivity].
  - reflexivity.
  - exact Hshape.
  - intros i c s0 s2.
    apply (run_input_cell_appends w fuel output wait_after_execute (log_written s0) i c s0 s2).
    reflexivity.
Qed.

Lemma closed_log_is_header_and_records_witness :
  ∃ s', final_state (with_open_log "out/event_log.csv"
                       (monitor_session sample_world 3 "out" 3) initial_state) = Some s'
        ∧ log_buffer s' = [] ∧ header_then_records (log_disk s').
Proof.
  destruct (final_state (with_open_log "out/event_log.csv"
                           (monitor_session sample_world 3 "out" 3) initial_state))
    as [s' |] eqn:Hfin.
  - exists s'. split; [reflexivity |].
    destruct (closed_log_is_header_and_records sample_world 3 "out" 3 "out/event_log.csv"
                initial_state s' Hfin) as (_ & Hbuf & Hshape & _).
    split; [exact Hbuf | exact Hshape].
  - exfalso. vm_compute in Hfin. discriminate Hfin.
Defined.

(** X3.  However the session ends, every record of the log it leaves names
    a screenshot file that exists and holds a picture. *)
Theorem logged_screenshots_exist w fuel output wait_after_execute path s s' :
  final_state (with_open_log path (monitor_session w fuel output wait_after_execute) s)
    = Some s' →
  ∀ r, event_line r ∈ log_disk s' → ∃ image, fs s' !! log_screenshot r = Some (Png image).
Proof.
  intros Hfin. apply with_open_log_final in Hfin as (s1 & Hfin & ->).
  assert (Hsaved : screenshots_saved s1).
  { revert Hfin.
    apply (hoare_monitor_session w fuel output wait_after_execute
             (λ s, log_written s = []) screenshots_saved screenshots_saved);
      try (intros; assumption).
    - intros s0 Hs0 r. unfold log_written in *. cbn [flush write_line log_disk log_buffer].
      apply app_eq_nil in Hs0 as [-> ->]. simpl.
      intros Hr. apply list_elem_of_singleton in Hr. discriminate.
    - intros s0 b shot Hs0 r. unfold log_written in *.
      cbn [after_change log_disk log_buffer fs]. rewrite app_nil_r, app_assoc.
      intros Hr. apply elem_of_app in Hr as [Hr | Hr].
      + destruct (Hs0 r Hr) as [image Himage].
        destruct (decide (output_screenshot_filename output b (isotime_at w (tick s0))
                          = log_screenshot r)) as [Heq | Hne].
        * rewrite Heq, lookup_insert_eq. eauto.
        * rewrite lookup_insert_ne by exact Hne. eauto.
      + apply list_elem_of_singleton in Hr. injection Hr as ->.
        cbn [log_screenshot]. rewrite lookup_insert_eq. eauto.
    - intros s0 i c Hs0 r. unfold log_written in *.
      cbn [after_execute log_disk log_buffer fs]. rewrite app_assoc.
      intros Hr. apply elem_of_app in Hr as [Hr | Hr].
      + destruct (Hs0 r Hr) as [image Himage].
        destruct (decide (input_screenshot_filename output i (isotime_at w (tick s0))
                          = log_screenshot r)) as [Heq | Hne].
        * rewrite Heq, lookup_insert_eq. eauto.
        * rewrite lookup_insert_ne by exact Hne. eauto.
      + apply list_elem_of_singleton in Hr. injection Hr as ->.
        cbn [log_screenshot]. rewrite lookup_insert_eq. eauto.
    - reflexivity. }
  intros r Hr. exact (Hsaved r Hr).
Qed.

Lemma logged_screenshots_exist_witness :
  ∃ s', final_state (with_open_log "out/event_log.csv"
                       (monitor_session sample_world 3 "out" 3) initial_state) = Some s'
        ∧ ∀ r, event_line r ∈ log_disk s' →
               ∃ image, fs s' !! log_screenshot r = Some (Png image).
Proof.
  destruct (final_state (with_open_log "out/event_log.csv"
                           (monitor_session sample_world 3 "out" 3) initial_state))
    as [s' |] eqn:Hfin.
  - exists s'. split; [reflexivity |].
    exact (logged_screenshots_exist sample_world 3 "out" 3 "out/event_log.csv"
             initial_state s' Hfin).
  - exfalso. vm_compute in Hfin. discriminate Hfin.
Defined.

Lemma execution_first_snoc_execute rows r :
  execution_first rows → log_event r = "execute-input" → execution_first (rows ++ [r]).
Proof.
  intros Hrows Hr k r1 Hk Hout.
  destruct (decide (k < length rows)%nat) as [Hlt | Hge].
  - rewrite lookup_app_l in Hk by exact Hlt.
    destruct (Hrows k r1 Hk Hout) as (j & r' & Hj & Hlook & He).
    exists j, r'. repeat split; [exact Hj | | exact He].
    rewrite lookup_app_l by lia. exact Hlook.
  - rewrite lookup_app_r in Hk by lia.
    destruct (k - length rows)%nat; [| discriminate].
    injection Hk as <-. rewrite Hr in Hout. discriminate.
Qed.

Lemma execution_first_snoc_change rows r j r' :
  execution_first rows → rows !! j = Some r' → log_event r' = "execute-input" →
  execution_first (rows ++ [r]).
Proof.
  intros Hrows Hj He k r1 Hk Hout.
  destruct (decide (k < length rows)%nat) as [Hlt | Hge].
  - rewrite lookup_app_l in Hk by exact Hlt.
    destruct (Hrows k r1 Hk Hout) as (j1 & r1' & Hj1 & Hlook & He1).
    exists j1, r1'. repeat split; [exact Hj1 | | exact He1].
    rewrite lookup_app_l by lia. exact Hlook.
  - exists j, r'. apply lookup_lt_Some in Hj as Hlt.
    repeat split; [lia | | exact He]. rewrite lookup_app_l by exact Hlt. exact Hj.
Qed.

(** The log of a session keeps every output-changed record behind an
    execute-input record. *)
Lemma session_log_in_order w fuel output wait path s s' :
  final_state (with_open_log path (monitor_session w fuel output wait) s) = Some s' →
  ∃ rows, log_disk s' = header_line :: (event_line <$> rows) ∧ execution_first rows.
Proof.
  intros Hfin. apply with_open_log_final in Hfin as (s1 & Hfin & ->).
  assert (Hord : log_in_order s1).
  { revert Hfin.
    apply (hoare_monitor_session w fuel output wait
             (λ s, log_written s = []) log_in_order log_in_order_executing);
      try (intros; assumption).
    - intros s0 Hs0. unfold log_in_order, log_written in *.
      cbn [flush write_line log_disk log_buffer].
      apply app_eq_nil in Hs0 as [-> ->]. exists []. split; [reflexivity |].
      intros k r Hk. discriminate.
    - intros s0 (rows & Hrows & Hord & _). exists rows. auto.
    - intros s0 b shot (rows & Hrows & Hord & j & r' & Hj & He).
      unfold log_in_order_executing, log_written in *.
      cbn [after_change log_disk log_buffer]. rewrite app_nil_r, app_assoc, Hrows.
      eexists (rows ++ [_]). rewrite fmap_app. split; [reflexivity |]. split.
      + exact (execution_first_snoc_change rows _ j r' Hord Hj He).
      + exists j, r'. split; [| exact He].
        apply lookup_lt_Some in Hj as Hlt. rewrite lookup_app_l by exact Hlt. exact Hj.
    - intros s0 i c (rows & Hrows & Hord).
      unfold log_in_order_executing, log_written in *.
      cbn [after_execute log_disk log_buffer]. rewrite app_assoc, Hrows.
      eexists (rows ++ [_]). rewrite fmap_app. split; [reflexivity |]. split.
      + apply execution_first_snoc_execute; [exact Hord | reflexivity].
      + exists (length rows). eexists. split.
        * rewrite lookup_app_r by lia. rewrite Nat.sub_diag. reflexivity.
        * reflexivity.
    - reflexivity. }
  destruct Hord as (rows & Hrows & Hord). exists rows. split; [| exact Hord].
  unfold log_written in Hrows. cbn [flush log_disk]. exact Hrows.
Qed.

Lemma data_rows_header_rows rows :
  data_rows (header_line :: (event_line <$> rows)) = rows.
Proof.
  unfold data_rows. cbn [tail].
  induction rows as [| r rows IH]; [reflexivity |].
  cbn [fmap list_fmap omap list_omap]. f_equal. exact IH.
Qed.

(** Lines 200-206 keep the records in number and order, with their event,
    index and screenshot; only the time changes. *)
Lemma elapsed_since_first_rows rows log :
  elapsed_since_first rows = Ok log →
  ∃ datetimes, mapM (λ r, fromisoformat (log_time r)) rows = Some datetimes
    ∧ length log = length rows
    ∧ ∀ k r, log !! k = Some r →
        ∃ lr dt dt0, rows !! k = Some lr ∧ datetimes !! k = Some dt
          ∧ datetimes !! 0%nat = Some dt0
          ∧ r = Row (dt - dt0) (log_event lr) (log_index lr) (log_screenshot lr).
Proof.
  unfold elapsed_since_first, mbind, result_bind, or_raise.
  destruct (mapM _ rows) as [datetimes |] eqn:Hm; [| discriminate].
  intros Hok. exists datetimes. split; [reflexivity |].
  apply length_mapM in Hm as Hlen.
  destruct datetimes as [| dt0 rest].
  - injection Hok as <-. destruct rows; [| discriminate]. split; [reflexivity |].
    intros k r Hk. discriminate.
  - injection Hok as <-. split.
    + rewrite length_zip_with. lia.
    + intros k r Hk. apply lookup_zip_with_Some in Hk as (lr & dt & -> & Hlr & Hdt).
      exists lr, dt, dt0. repeat split; assumption.
Qed.

(** The array of a log is one-dimensional unless the log has one record. *)
Lemma elapsed_times_recfromcsv lines :
  elapsed_times (recfromcsv lines)
  = if decide (length (data_rows lines) = 1%nat) then Err TypeError
    else elapsed_since_first (data_rows lines).
Proof.
  unfold recfromcsv, squeeze.
  destruct (data_rows lines) as [| r [| r' rest]]; reflexivity.
Qed.

(** The grouping loop depends on the events of the records only for its
    [KeyError]: records in which every output-changed one comes after an
    execute-input one are grouped. *)
Lemma group_rows_of_ordered_events (rows : list log_row) (log : list row) :
  execution_first rows →
  Forall2 (λ lr r, r_event r = log_event lr) rows log →
  ∃ results, group_rows log = Ok results.
Proof.
  intros Hord Hev.
  destruct (group_from_succeeds log ([], None)) as [st Hst].
  - split; [reflexivity | intros c; discriminate].
  - intros k r Hk Hout. right.
    destruct (Forall2_lookup_r _ _ _ k r Hev Hk) as (lr & Hlr & He).
    rewrite He in Hout.
    destruct (Hord k lr Hlr Hout) as (j & lr' & Hj & Hlr' & He').
    destruct (Forall2_lookup_l _ _ _ j lr' Hev Hlr') as (r' & Hr' & He2).
    exists j, r'. repeat split; [exact Hj | exact Hr' |].
    rewrite He2. exact He'.
  - exists st.1. unfold group_rows. rewrite Hst. reflexivity.
Qed.

(** X4.  The post-processor never meets the [KeyError] of line 230 on a log
    that a session wrote.  The closed log is the header followed by records
    in which every output-changed record comes after an execute-input
    record; so the grouping loop of lines 211-231 succeeds on these records
    whatever elapsed times lines 200-206 have given them, and the computation
    of the profiles, when it fails on such a log, fails before the grouping
    and not with a [KeyError]. *)
Theorem session_log_is_grouped w fuel output wait_after_execute path s s' :
  final_state (with_open_log path (monitor_session w fuel output wait_after_execute) s)
    = Some s' →
  (∃ rows, log_disk s' = header_line :: (event_line <$> rows)
     ∧ ∀ log, Forall2 (λ lr r, r_event r = log_event lr) rows log →
         ∃ results, group_rows log = Ok results)
  ∧ (∀ log, elapsed_times (recfromcsv (log_disk s')) = Ok log →
       ∃ results, profiles (log_disk s') = Ok results)
  ∧ profiles (log_disk s') ≠ Err KeyError.
Proof.
  intros Hfin.
  destruct (session_log_in_order w fuel output wait_after_execute path s s' Hfin)
    as (rows & Hrows & Hord).
  assert (Hgroup : ∀ log, elapsed_times (recfromcsv (log_disk s')) = Ok log →
            ∃ results, group_rows log = Ok results).
  { intros log Hlog. apply (group_rows_of_ordered_events rows log Hord).
    rewrite elapsed_times_recfromcsv, Hrows, data_rows_header_rows in Hlog.
    destruct (decide (length rows = 1%nat)); [discriminate |].
    destruct (elapsed_since_first_rows rows log Hlog) as (datetimes & _ & Hlen & Hrow).
    apply Forall2_same_length_lookup. split; [symmetry; exact Hlen |].
    intros k lr r Hlr Hr.
    destruct (Hrow k r Hr) as (lr2 & dt & dt0 & Hlr2 & _ & _ & ->).
    rewrite Hlr in Hlr2. injection Hlr2 as <-. reflexivity. }
  split; [| split].
  - exists rows. split; [exact Hrows |].
    intros log Hev. exact (group_rows_of_ordered_events rows log Hord Hev).
  - intros log Hlog. unfold profiles. rewrite Hlog.
    destruct (Hgroup log Hlog) as [results Hres].
    unfold mbind, result_bind. rewrite Hres. eauto.
  - unfold profiles, mbind, result_bind.
    destruct (elapsed_times (recfromcsv (log_disk s'))) as [log | e] eqn:Hlog.
    + destruct (Hgroup log eq_refl) as [results ->]. discriminate.
    + rewrite elapsed_times_recfromcsv in Hlog.
      destruct (decide _); [congruence |].
      unfold elapsed_since_first, mbind, result_bind, or_raise in Hlog.
      destruct (mapM _ _) as [[| dt0 rest] |]; [discriminate | discriminate | congruence].
Qed.

Lemma session_log_is_grouped_witness :
  ∃ s', final_state (with_open_log "out/event_log.csv"
                       (monitor_session sample_world 3 "out" 3) initial_state) = Some s'
        ∧ profiles (log_disk s') ≠ Err KeyError.
Proof.
  destruct (final_state (with_open_log "out/event_log.csv"
                           (monitor_session sample_world 3 "out" 3) initial_state))
    as [s' |] eqn:Hfin.
  - exists s'. split; [reflexivity |].
    exact (proj2 (proj2 (session_log_is_grouped sample_world 3 "out" 3 "out/event_log.csv"
                           initial_state s' Hfin))).
  - exfalso. vm_compute in Hfin. discriminate Hfin.
Defined.

(** ** Elapsed times *)

(** X5.  When lines 196-206 succeed on a log file, the log does not have
    exactly one record, and the records are kept in number and order with
    their event, index and screenshot, each with the time elapsed since the
    first record, which itself gets 0.  On a log file with exactly one record
    they raise [TypeError]: the array read from it has no dimension, and line
    200 cannot iterate it. *)
Theorem elapsed_times_count_from_first_record (lines : list log_line) :
  (∀ log, elapsed_times (recfromcsv lines) = Ok log →
     length (data_rows lines) ≠ 1%nat
     ∧ length log = length (data_rows lines)
     ∧ (∀ r, log !! 0%nat = Some r → r_time r = 0)
     ∧ ∀ k r, log !! k = Some r →
         ∃ lr first t t0,
           data_rows lines !! k = Some lr ∧ data_rows lines !! 0%nat = Some first
           ∧ fromisoformat (log_time lr) = Some t
           ∧ fromisoformat (log_time first) = Some t0
           ∧ r = Row (t - t0) (log_event lr) (log_index lr) (log_screenshot lr))
  ∧ (length (data_rows lines) = 1%nat → elapsed_times (recfromcsv lines) = Err TypeError).
Proof.
  rewrite elapsed_times_recfromcsv.
  destruct (decide (length (data_rows lines) = 1%nat)) as [Hone | Hmore].
  { split; [intros log; discriminate | reflexivity]. }
  split; [| intros Hone; contradiction].
  set (rows := data_rows lines) in *.
  assert (Hfull : ∀ log, elapsed_since_first rows = Ok log →
            length log = length rows
            ∧ ∀ k r, log !! k = Some r →
                ∃ lr first t t0,
                  rows !! k = Some lr ∧ rows !! 0%nat = Some first
                  ∧ fromisoformat (log_time lr) = Some t
                  ∧ fromisoformat (log_time first) = Some t0
                  ∧ r = Row (t - t0) (log_event lr) (log_index lr) (log_screenshot lr)).
  { intros log Hlog.
    destruct (elapsed_since_first_rows rows log Hlog) as (datetimes & Hm & Hlen & Hrow).
    split; [exact Hlen |]. intros k r Hk.
    destruct (Hrow k r Hk) as (lr & t & t0 & Hlr & Ht & Ht0 & ->).
    apply mapM_Some in Hm.
    destruct (Forall2_lookup_r _ _ _ 0%nat t0 Hm Ht0) as (first & Hfirst & Hf0).
    exists lr, first, t, t0. repeat split; try assumption.
    destruct (Forall2_lookup_l _ _ _ k lr Hm Hlr) as (t' & Ht' & Hf).
    rewrite Ht in Ht'. injection Ht' as <-. exact Hf. }
  intros log Hlog. destruct (Hfull log Hlog) as [Hlen Hrow].
  split; [exact Hmore |]. split; [exact Hlen |]. split; [| exact Hrow].
  intros r Hr. destruct (Hrow 0%nat r Hr) as (lr & first & t & t0 & Hlr & Hfirst & Ht & Ht0 & ->).
  rewrite Hlr in Hfirst. injection Hfirst as <-. rewrite Ht in Ht0. injection Ht0 as <-.
  cbn [r_time]. lia.
Qed.

Lemma elapsed_times_count_from_first_record_witness :
  ∃ log, elapsed_times (recfromcsv sample_log) = Ok log ∧ length log = 3%nat.
Proof.
  destruct (elapsed_times (recfromcsv sample_log)) as [log | e] eqn:Hlog.
  - exists log. split; [reflexivity |].
    destruct (proj1 (elapsed_times_count_from_first_record sample_log) log Hlog)
      as (_ & Hlen & _).
    exact Hlen.
  - exfalso. vm_compute in Hlog. discriminate Hlog.
Defined.

(** ** The post-processor as a whole *)

(** X6.  The post-processor writes one file or nothing.  When it ends
    normally the state differs from the one before only by the annotated
    notebook at its path under the output directory; when it raises, and it
    raises nothing but a [FileNotFoundError], [ValueError], [KeyError],
    [IndexError] or [TypeError], the state is the one before; it never
    exits. *)
Theorem post_processor_writes_one_file_or_nothing output event_log_path copy_notebook s :
  (∃ new_cells,
     write_profiled_notebook_copy output event_log_path copy_notebook s
     = Done tt (set_fs <[Py.path_join output
                           (Py.replace ".ipynb" "-profiling.ipynb"
                              (Py.basename copy_notebook))
                         := Notebook new_cells]> s))
  ∨ (∃ e, write_profiled_notebook_copy output event_log_path copy_notebook s = Raised e s).
Proof.
  unfold write_profiled_notebook_copy, mbind, M_bind, read_log, read_notebook, lift, raise,
    mret, M_ret, write_notebook, modify.
  destruct (fs s !! event_log_path) as [[] |]; try (right; eexists; reflexivity).
  destruct (profiles (log_disk s)) as [results |]; [| right; eexists; reflexivity].
  destruct (markdown_annotations results) as [annotations |]; [| right; eexists; reflexivity].
  destruct (fs s !! copy_notebook) as [[| | | cells] |]; try (right; eexists; reflexivity).
  destruct (weave annotations cells) as [new_cells |]; [| right; eexists; reflexivity].
  left. exists new_cells. reflexivity.
Qed.

(** ** More on weaving *)

Lemma interleave_surplus cells : ∀ annotations surplus,
  (count_nonempty_code cells ≤ length annotations)%nat →
  interleave (annotations ++ surplus) cells = interleave annotations cells.
Proof.
  induction cells as [| c cells IH]; intros annotations surplus Hlen; [reflexivity |].
  rewrite count_nonempty_code_cons in Hlen. cbn [interleave].
  destruct (nonempty_code c).
  - destruct annotations as [| a rest]; [simpl in Hlen; lia |].
    cbn [app]. rewrite IH by (simpl in Hlen; lia). reflexivity.
  - rewrite IH by exact Hlen. reflexivity.
Qed.

Lemma interleave_no_code cells annotations :
  count_nonempty_code cells = 0%nat → woven_cell <$> interleave annotations cells = cells.
Proof.
  induction cells as [| c cells IH]; intros Hcount; [reflexivity |].
  rewrite count_nonempty_code_cons in Hcount. cbn [interleave].
  destruct (nonempty_code c); [lia |].
  cbn [fmap list_fmap woven_cell]. f_equal. apply IH. exact Hcount.
Qed.

(** X7.  The merge reads the annotations from the front and only as many as
    the notebook has non-empty code cells: annotations beyond that number are
    passed over without an error, and a notebook with no non-empty code cell
    comes out as it went in, whatever the annotations. *)
Theorem weave_ignores_surplus_annotations annotations surplus cells :
  ((count_nonempty_code cells ≤ length annotations)%nat →
     weave (annotations ++ surplus) cells = weave annotations cells)
  ∧ (count_nonempty_code cells = 0%nat → weave annotations cells = Ok cells).
Proof.
  split.
  - intros Hlen. unfold weave.
    pose proof (weave_from_enough annotations cells [] 0 ltac:(lia)) as H1.
    pose proof (weave_from_enough (annotations ++ surplus) cells [] 0
                  ltac:(rewrite length_app; lia)) as H2.
    change (Z.of_nat 0 - 1) with (-1) in H1, H2.
    rewrite H1, H2, !drop_0, interleave_surplus by exact Hlen. reflexivity.
  - intros Hcount. unfold weave.
    pose proof (weave_from_enough annotations cells [] 0 ltac:(lia)) as H1.
    change (Z.of_nat 0 - 1) with (-1) in H1.
    rewrite H1, drop_0, interleave_no_code by exact Hcount. reflexivity.
Qed.

Lemma weave_ignores_surplus_annotations_witness :
  weave (["first"; "second"] ++ ["third"]) sample_notebook
  = weave ["first"; "second"] sample_notebook.
Proof.
  apply (proj1 (weave_ignores_surplus_annotations ["first"; "second"] ["third"]
                  sample_notebook)).
  vm_compute. lia.
Defined.

(** ** More on the change detector *)

(** X8.  Once a monitored output has been scanned, scanning it again with
    the same picture changes nothing: no second record, no file, no
    consultation of the clock.  And the scan of output [b] leaves the
    pictures kept for the other outputs as they were. *)
Theorem rescan_of_unchanged_output_records_nothing w output c d st b s s1 :
  output_visible c = true → div c = Some d → style d = Some st →
  Py.contains "border-color: rgb(" st = true →
  parse_border_color st = Some (143, 56, b) →
  watch_output_cell w output c s = Done tt s1 →
  watch_output_cell w output c s1 = Done tt s1
  ∧ ∀ b', b' ≠ b → last_screenshot s1 !! b' = last_screenshot s !! b'.
Proof.
  intros Hv Hd Hs Hc Hp.
  rewrite !(watch_monitored_cell w output c d st b _ Hv Hd Hs Hc Hp), !record_if_changed_eq.
  assert (Hkept : ∀ s0, last_screenshot s0 !! b = Some (div_screenshot d) →
            ¬ change_detected s0 b (div_screenshot d)).
  { intros s0 Hs0 [Hnone | Hne]; congruence. }
  destruct (decide (change_detected s b (div_screenshot d))) as [Hch | Hch].
  - intros [= <-]. split.
    + rewrite decide_False; [reflexivity |].
      apply Hkept. cbn [after_change last_screenshot]. apply lookup_insert_eq.
    + intros b' Hb'. cbn [after_change last_screenshot].
      apply lookup_insert_ne. congruence.
  - intros [= <-]. split; [| reflexivity].
    rewrite decide_False by exact Hch. reflexivity.
Qed.

Lemma rescan_of_unchanged_output_records_nothing_witness :
  ∃ s1, watch_output_cell sample_world "out" sample_output_cell sample_state = Done tt s1
        ∧ watch_output_cell sample_world "out" sample_output_cell s1 = Done tt s1.
Proof.
  destruct (watch_output_cell sample_world "out" sample_output_cell sample_state)
    as [[] s1 | e s1 | code s1 |] eqn:Hrun.
  - exists s1. split; [reflexivity |].
    exact (proj1 (rescan_of_unchanged_output_records_nothing sample_world "out"
                    sample_output_cell (DivElement (Some sample_style) [x89; x50; x4e; x47])
                    sample_style 7 sample_state s1 eq_refl eq_refl eq_refl eq_refl eq_refl
                    Hrun)).
  - exfalso. vm_compute in Hrun. discriminate Hrun.
  - exfalso. vm_compute in Hrun. discriminate Hrun.
  - exfalso. vm_compute in Hrun. discriminate Hrun.
Defined.

(** ** Empty input cells *)

Lemma rstrip_empty_iff s : Py.rstrip s = "" ↔ blank s = true.
Proof.
  induction s as [| c s IH]; [split; reflexivity |].
  cbn [Py.rstrip blank]. destruct (Py.rstrip s) as [| c' r] eqn:Hr.
  - destruct (Py.isspace c); cbn [andb].
    + split; [intros _; apply IH; reflexivity | reflexivity].
    + split; discriminate.
  - split; [discriminate |]. intros Hb. apply andb_true_iff in Hb as [_ Hb].
    apply IH in Hb. discriminate.
Qed.

Lemma blank_rstrip s : blank (Py.rstrip s) = true → Py.rstrip s = "".
Proof.
  induction s as [| c s IH]; [reflexivity |].
  cbn [Py.rstrip]. destruct (Py.rstrip s) as [| c' r] eqn:Hr.
  - destruct (Py.isspace c) eqn:Hc; [reflexivity |].
    cbn [blank]. rewrite Hc. discriminate.
  - cbn [blank]. intros Hb. apply andb_true_iff in Hb as [_ Hb].
    specialize (IH Hb). discriminate.
Qed.

Lemma lstrip_empty s : Py.lstrip s = "" → blank s = true.
Proof.
  induction s as [| c s IH]; [reflexivity |].
  cbn [Py.lstrip blank]. destruct (Py.isspace c); [exact IH | discriminate].
Qed.

(** [s.strip() == ''] holds exactly of the strings of white space. *)
Lemma strip_empty_iff s : Py.strip s = "" ↔ blank s = true.
Proof.
  unfold Py.strip. split.
  - intros Hs. apply rstrip_empty_iff, blank_rstrip, lstrip_empty, Hs.
  - intros Hb. apply rstrip_empty_iff in Hb. rewrite Hb. reflexivity.
Qed.

(** X9.  An input cell whose text is white space only is passed over: no
    screenshot, no record, no reading of the clock.  Any other cell is
    executed, and however its watch ends, the log holds its execute-input
    record, under its position on the page. *)
Theorem blank_input_cells_are_skipped w fuel output wait_after_execute input_index c s :
  (blank (text_content c) = true →
     run_input_cell w fuel output wait_after_execute input_index c s = Done tt s)
  ∧ (blank (text_content c) = false →
       ∀ s', final_state (run_input_cell w fuel output wait_after_execute input_index c s)
               = Some s' →
         event_line (LogRow (isotime_at w (tick s)) "execute-input" (Z.of_nat input_index)
                       (input_screenshot_filename output input_index (isotime_at w (tick s))))
           ∈ log_written s').
Proof.
  unfold run_input_cell. split.
  - intros Hb. apply strip_empty_iff in Hb.
    rewrite (bool_decide_eq_true_2 _ Hb). reflexivity.
  - intros Hb s'.
    rewrite bool_decide_eq_false_2
      by (intros Hs; apply strip_empty_iff in Hs; congruence).
    set (row := event_line (LogRow (isotime_at w (tick s)) "execute-input"
                              (Z.of_nat input_index)
                              (input_screenshot_filename output input_index
                                 (isotime_at w (tick s))))).
    unfold mbind, M_bind. rewrite execute_input_cell_eq.
    apply (invariant_watch w fuel output wait_after_execute (λ s0, row ∈ log_written s0)).
    + intros s0 Hs0. exact Hs0.
    + intros s0 b shot Hs0. unfold log_written in *.
      cbn [after_change log_disk log_buffer]. rewrite app_nil_r, app_assoc.
      apply elem_of_app. left. exact Hs0.
    + unfold log_written. cbn [after_execute log_disk log_buffer]. rewrite app_assoc.
      apply elem_of_app. right. apply list_elem_of_here.
Qed.

Lemma blank_input_cells_are_skipped_witness :
  run_input_cell sample_world 3 "out" 3 1 (InputCell true " " [x01]) sample_state
  = Done tt sample_state.
Proof.
  exact (proj1 (blank_input_cells_are_skipped sample_world 3 "out" 3 1
                  (InputCell true " " [x01]) sample_state) eq_refl).
Defined.

(** ** What the grouping builds *)

Lemma results_get_None {V} (k : Z) (results : list (Z * V)) :
  results_get k results = None ↔ k ∉ results.*1.
Proof.
  induction results as [| [k0 v0] results IH]; cbn [results_get fmap list_fmap fst].
  - split; [intros _ H; inversion H | reflexivity].
  - rewrite not_elem_of_cons. destruct (decide (k0 = k)) as [-> | Hne].
    + split; [discriminate | intros [H _]; congruence].
    + rewrite IH. split; [intros H; split; [congruence | exact H] | intros [_ H]; exact H].
Qed.

Lemma results_alter_keys {V} (f : V → V) (c : Z) (results : list (Z * V)) :
  (results_alter f c results).*1 = results.*1.
Proof.
  induction results as [| [k0 v0] results IH]; [reflexivity |].
  cbn [results_alter]. destruct (decide (k0 = c)); cbn [fmap list_fmap fst];
    [reflexivity | f_equal; exact IH].
Qed.

Lemma results_alter_elem {V} (f : V → V) (c : Z) (results : list (Z * V)) k v' :
  (k, v') ∈ results_alter f c results →
  (k, v') ∈ results ∨ (k = c ∧ ∃ v, results_get c results = Some v ∧ v' = f v).
Proof.
  induction results as [| [k0 v0] results IH]; cbn [results_alter results_get].
  - intros H. inversion H.
  - destruct (decide (k0 = c)) as [-> | Hne]; intros H; apply elem_of_cons in H as [H | H].
    + injection H as -> ->. right. split; [reflexivity | eauto].
    + left. apply elem_of_cons. right. exact H.
    + left. apply elem_of_cons. left. exact H.
    + destruct (IH H) as [H' | H']; [left; apply elem_of_cons; right; exact H' | right; exact H'].
Qed.

Lemma results_get_elem {V} (k : Z) (results : list (Z * V)) v :
  results_get k results = Some v → (k, v) ∈ results.
Proof.
  induction results as [| [k0 v0] results IH]; cbn [results_get]; [discriminate |].
  destruct (decide (k0 = k)) as [-> | Hne].
  - intros [= ->]. apply list_elem_of_here.
  - intros H. apply elem_of_cons. right. exact (IH H).
Qed.

Lemma grouped_changes_alter d c results g :
  results_get c results = Some g →
  grouped_changes (results_alter (append_changed d) c results) = S (grouped_changes results).
Proof.
  unfold grouped_changes.
  induction results as [| [k0 v0] results IH]; cbn [results_get results_alter]; [discriminate |].
  destruct (decide (k0 = c)) as [-> | Hne].
  - intros _. cbn [sum_list_with snd append_changed output_changed].
    rewrite length_app. cbn [length]. lia.
  - intros H. cbn [sum_list_with snd]. rewrite (IH H). lia.
Qed.

Lemma group_of_cell_more log r k g :
  group_of_cell log k g → group_of_cell (log ++ [r]) k g.
Proof.
  intros (He & Hi & Hin & Hc). repeat split; try assumption.
  - apply elem_of_app. left. exact Hin.
  - apply (Hc c H).
  - apply (Hc c H).
  - apply (Hc c H).
  - apply elem_of_app. left. apply (Hc c H).
Qed.

Lemma logged_changes_snoc log r :
  logged_changes (log ++ [r])
  = (logged_changes log + if decide (r_event r = "output-changed") then 1 else 0)%nat.
Proof.
  unfold logged_changes. rewrite filter_app, length_app, filter_cons, filter_nil.
  destruct (decide (r_event r = "output-changed")); reflexivity.
Qed.

Lemma group_step_grouping log results last r st' :
  grouping_of log results → group_step (results, last) r = Ok st' →
  grouping_of (log ++ [r]) st'.1.
Proof.
  intros (Hnodup & Hgroups & Hcount).
  assert (Hkeep : ∀ k g, (k, g) ∈ results → group_of_cell (log ++ [r]) k g).
  { intros k g Hkg. apply group_of_cell_more, Hgroups, Hkg. }
  assert (Hr : r ∈ log ++ [r]) by (apply elem_of_app; right; apply list_elem_of_here).
  destruct (decide (r_event r = "execute-input")) as [He | He].
  - assert (Hnot : r_event r ≠ "output-changed") by (rewrite He; discriminate).
    destruct (results_get (r_index r) results) as [g |] eqn:Hg.
    + rewrite (group_step_known_cell results last r He) by (rewrite Hg; eauto).
      intros [= <-]. cbn [fst]. split; [exact Hnodup |]. split; [exact Hkeep |].
      rewrite logged_changes_snoc, decide_False by exact Hnot. lia.
    + rewrite (group_step_new_cell results last r He Hg).
      intros [= <-]. cbn [fst]. split; [| split].
      * rewrite fmap_app. apply NoDup_app. split; [exact Hnodup |]. split.
        -- intros k Hk Hk'. apply list_elem_of_singleton in Hk'. subst k.
           apply results_get_None in Hg. contradiction.
        -- apply NoDup_singleton.
      * intros k g Hkg. apply elem_of_app in Hkg as [Hkg | Hkg]; [exact (Hkeep k g Hkg) |].
        apply list_elem_of_singleton in Hkg. injection Hkg as -> ->.
        split; [exact He |]. split; [reflexivity |]. split; [exact Hr |].
        intros c Hc. inversion Hc.
      * unfold grouped_changes in *. rewrite sum_list_with_app.
        cbn [sum_list_with snd output_changed length].
        rewrite logged_changes_snoc, decide_False by exact Hnot. lia.
  - destruct (decide (r_event r = "output-changed")) as [Ho | Ho].
    + destruct last as [c |]; [| rewrite (group_step_no_cell results r Ho); discriminate].
      destruct (results_get c results) as [g |] eqn:Hg.
      * rewrite (group_step_output_changed results c g r Ho Hg).
        intros [= <-]. cbn [fst]. split; [| split].
        -- rewrite results_alter_keys. exact Hnodup.
        -- intros k g' Hkg. apply results_alter_elem in Hkg as [Hkg | [-> (g0 & Hg0 & ->)]];
             [exact (Hkeep k g' Hkg) |].
           rewrite Hg in Hg0. injection Hg0 as <-.
           destruct (Hkeep c g (results_get_elem c results g Hg)) as (He' & Hi & Hin & Hc).
           split; [exact He' |]. split; [exact Hi |]. split; [exact Hin |].
           cbn [append_changed execute_input output_changed].
           intros c0 Hc0. apply elem_of_app in Hc0 as [Hc0 | Hc0]; [exact (Hc c0 Hc0) |].
           apply list_elem_of_singleton in Hc0. subst c0.
           cbn [output_from_cell dt changed_row]. auto.
        -- rewrite (grouped_changes_alter _ c results g Hg), logged_changes_snoc,
             decide_True by exact Ho. lia.
      * unfold group_step.
        rewrite (bool_decide_eq_false_2 _ He), andb_false_r, (bool_decide_eq_true_2 _ Ho).
        cbn. unfold mbind, result_bind. rewrite Hg. discriminate.
    + rewrite (group_step_other _ r He Ho). intros [= <-]. cbn [fst].
      split; [exact Hnodup |]. split; [exact Hkeep |].
      rewrite logged_changes_snoc, decide_False by exact Ho. lia.
Qed.

Lemma group_from_grouping log : ∀ seen results last st',
  grouping_of seen results → group_from (results, last) log = Ok st' →
  grouping_of (seen ++ log) st'.1.
Proof.
  induction log as [| r log IH]; intros seen results last st' Hinv Hrun.
  - injection Hrun as <-. rewrite app_nil_r. exact Hinv.
  - unfold group_from in *. cbn [fold_result] in Hrun.
    destruct (group_step (results, last) r) as [[results1 last1] | e] eqn:Hstep;
      [| discriminate].
    cbn [mbind result_bind] in Hrun.
    pose proof (group_step_grouping seen results last r _ Hinv Hstep) as Hinv1.
    cbn [fst] in Hinv1.
    replace (seen ++ r :: log) with ((seen ++ [r]) ++ log)
      by (rewrite <- app_assoc; reflexivity).
    exact (IH (seen ++ [r]) results1 last1 st' Hinv1 Hrun).
Qed.

(** X10.  When the grouping succeeds, its groups have distinct keys, each
    group opens with an execute-input record of the log whose index is the
    key, each output-changed record it holds is a record of the log, marked
    with the key and timed from that execute-input record, and the groups
    hold together as many output-changed records as the log has: none is
    lost and none counted twice. *)
Theorem grouping_keeps_every_output_change (log : list row) (results : list (Z * group)) :
  group_rows log = Ok results →
  NoDup results.*1
  ∧ (∀ k g, (k, g) ∈ results → group_of_cell log k g)
  ∧ grouped_changes results = logged_changes log.
Proof.
  unfold group_rows. intros Hrun.
  destruct (group_from ([], None) log) as [st' |] eqn:Hfrom; [| discriminate].
  injection Hrun as <-.
  apply (group_from_grouping log [] [] None st'); [| exact Hfrom].
  split; [apply NoDup_nil_2 |]. split; [| reflexivity].
  intros k g Hkg. inversion Hkg.
Qed.

Lemma grouping_keeps_every_output_change_witness :
  ∃ results,
    group_rows [Row 0 "execute-input" 0 "a.png"; Row 5 "output-changed" 7 "b.png";
                Row 9 "execute-input" 2 "c.png"; Row 12 "output-changed" 7 "d.png"]
    = Ok results
    ∧ grouped_changes results = 2%nat.
Proof.
  destruct (group_rows [Row 0 "execute-input" 0 "a.png"; Row 5 "output-changed" 7 "b.png";
                        Row 9 "execute-input" 2 "c.png"; Row 12 "output-changed" 7 "d.png"])
    as [results | e] eqn:Hrun.
  - exists results. split; [reflexivity |].
    exact (proj2 (proj2 (grouping_keeps_every_output_change _ results Hrun))).
  - exfalso. vm_compute in Hrun. discriminate Hrun.
Defined.

(** ** Annotations *)

